(** * RAG chatbot backend: retrieval pipeline, session store, streaming channel

    A shallow embedding of the JavaScript sources

    - [services/ragPipeline.js]   (class [RAGPipelineService]),
    - [services/redis.js]         (class [RedisService]),
    - [services/embeddings.js]    (class [EmbeddingsService]),
    - [services/vectordb.js]      (class [VectorDBService]),
    - [services/llm.js]           (class [LLMService]),
    - [controllers/chatControllers.js] ([handleSocketMessage]),

    followed by the properties the design document states about them and
    by further properties of the same code.

    Conventions of the embedding.

    - A JavaScript number is [JS.number]: [NaN], a signed infinity, or a
      finite value held as a rational.  Arithmetic is IEEE 754 binary64: a
      subtraction gives the exact difference rounded to the nearest double,
      ties to even, with subnormals and overflow to infinity ([JS.round]); a
      decimal literal of the source is the double nearest to it
      ([JS.double]).  Comparisons are exact.  The two zeros are one value:
      the program never divides by a zero and never prints its sign.
    - A JavaScript string is a [string] (a sequence of 8-bit code units);
      [length] counts code units.
    - [undefined] / [null] / a missing array slot is [None].
    - An [async] method is a computation in the monad [M]: it reads the
      external world ([Env]: providers, clock, environment variables),
      updates the mutable state ([World]: session store, emitted socket
      events, requests sent to the providers) and either returns or throws.
      State written before a [throw] stays written, as in JavaScript.
    - Expiry of keys (the Redis server's own clock, the [setTimeout]
      callbacks of the in-memory substitute) is recorded with the key; no
      expiry fires inside a call.  Between calls, [expireNext] lets the next
      timer of the in-memory substitute expire. *)

From Stdlib Require Import QArith Qround Qpower Lqa ZArith Lia String Ascii List Sorted Permutation Bool.
From stdpp Require Import gmap strings list pretty.

Local Open Scope string_scope.
Local Open Scope list_scope.

(** ** JavaScript values and built-ins *)

Module JS.

Inductive number : Type :=
| NaN : number
| Inf (negative : bool) : number
| Fin (q : Q) : number.

Definition ofZ (z : Z) : number := Fin (inject_Z z).
Definition ofNat (n : nat) : number := ofZ (Z.of_nat n).

(** [ToBoolean] on numbers: [0] and [NaN] are falsy. *)
Definition truthy (n : number) : bool :=
  match n with
  | NaN => false
  | Inf _ => true
  | Fin q => negb (Qeq_bool q 0)
  end.

(** [a || d] where [a] may be [undefined]. *)
Definition or (a : option number) (d : number) : number :=
  match a with
  | Some n => if truthy n then n else d
  | None => d
  end.

(** Rounding to binary64.  [floorLog2 q] is the binary exponent of a
    positive [q]: the greatest [l] with [2^l <= q]. *)
Definition floorLog2 (q : Q) : Z :=
  let l := (Z.log2 (Qnum q) - Z.log2 (Zpos (Qden q)))%Z in
  if Qle_bool (2 ^ l) q then l else (l - 1)%Z.

(** The nearest integer, ties to the even one. *)
Definition roundHalfEven (q : Q) : Z :=
  let f := Qfloor q in
  match (q - inject_Z f ?= 1 # 2)%Q with
  | Lt => f
  | Gt => (f + 1)%Z
  | Eq => if Z.even f then f else (f + 1)%Z
  end.

(** The double nearest to a positive [q]: a significand of 53 bits at the
    exponent of [q], never below the subnormal spacing [2^-1074]; a result
    of [2^1024] or more is [Infinity]. *)
Definition roundPos (q : Q) : number :=
  let e := Z.max (floorLog2 q - 52) (-1074) in
  let v := (inject_Z (roundHalfEven (q / 2 ^ e)) * 2 ^ e)%Q in
  if Qle_bool (2 ^ 1024) v then Inf false else Fin (Qred v).

(** [-a] *)
Definition neg (a : number) : number :=
  match a with
  | NaN => NaN
  | Inf s => Inf (negb s)
  | Fin q => Fin (Qred (- q))
  end.

(** The double nearest to [q]. *)
Definition round (q : Q) : number :=
  match (q ?= 0)%Q with
  | Eq => Fin 0
  | Gt => roundPos q
  | Lt => neg (roundPos (- q))
  end.

(** A decimal literal of the source, such as [0.1]. *)
Definition double (q : Q) : number := round q.

(** [a - b] *)
Definition sub (a b : number) : number :=
  match a, b with
  | NaN, _ | _, NaN => NaN
  | Inf s, Inf s' => if Bool.eqb s s' then NaN else Inf s
  | Inf s, Fin _ => Inf s
  | Fin _, Inf s => Inf (negb s)
  | Fin x, Fin y => round (x - y)
  end.

(** [a >= b] *)
Definition ge (a b : number) : bool :=
  match a, b with
  | NaN, _ | _, NaN => false
  | Inf false, _ => true
  | Inf true, Inf true => true
  | Inf true, _ => false
  | Fin _, Inf s => s
  | Fin x, Fin y => Qle_bool y x
  end.

(** [a > b] *)
Definition gt (a b : number) : bool :=
  match a, b with
  | NaN, _ | _, NaN => false
  | Inf s, Inf s' => negb s && s'
  | Inf s, Fin _ => negb s
  | Fin _, Inf s => s
  | Fin x, Fin y => negb (Qle_bool x y)
  end.

(** [a <= b] and [a < b] *)
Definition le (a b : number) : bool := ge b a.
Definition lt (a b : number) : bool := gt b a.

(** [Math.max], [Math.min]: [NaN] if an argument is [NaN]. *)
Definition Math_max (a b : number) : number :=
  match a, b with
  | NaN, _ | _, NaN => NaN
  | _, _ => if ge a b then a else b
  end.

Definition Math_min (a b : number) : number :=
  match a, b with
  | NaN, _ | _, NaN => NaN
  | _, _ => if ge b a then a else b
  end.

(** [ToIntegerOrInfinity], clamped into [0, len]: the relative index
    resolution shared by [Array.prototype.slice]. *)
Definition trunc (q : Q) : Z :=
  if Qle_bool 0 q then Qfloor q else Qceiling q.

Definition relIndex (len : nat) (n : number) : nat :=
  match n with
  | NaN => 0
  | Inf true => 0
  | Inf false => len
  | Fin q =>
      let k := trunc q in
      if (k <? 0)%Z then Z.to_nat (Z.max (Z.of_nat len + k) 0)
      else Nat.min (Z.to_nat k) len
  end.

(** [arr.slice(start, end)] and [arr.slice(start)] *)
Definition slice {A} (l : list A) (start end_ : number) : list A :=
  let len := length l in
  let from := relIndex len start in
  let to := relIndex len end_ in
  take (to - from) (drop from l).

Definition sliceFrom {A} (l : list A) (start : number) : list A :=
  drop (relIndex (length l) start) l.

(** [Array.prototype.sort(comparefn)].  The sort is stable (ECMAScript
    2019); a [NaN] returned by the comparator counts as [+0]; [x] moves
    behind [y] exactly when [comparefn(x, y) > 0]. *)
Fixpoint sortInsert {A} (cmp : A -> A -> number) (x : A) (l : list A) : list A :=
  match l with
  | [] => [x]
  | y :: l' => if gt (cmp x y) (Fin 0) then y :: sortInsert cmp x l' else x :: y :: l'
  end.

Definition sort {A} (cmp : A -> A -> number) (l : list A) : list A :=
  foldr (sortInsert cmp) [] l.

(** Strings. White space code units below 256: TAB, LF, VT, FF, CR,
    SPACE and NBSP. *)
Definition isWhiteSpace (c : ascii) : bool :=
  let n := nat_of_ascii c in
  ((9 <=? n)%nat && (n <=? 13)%nat) || (n =? 32)%nat || (n =? 160)%nat.

Fixpoint trimStart (s : string) : string :=
  match s with
  | EmptyString => EmptyString
  | String c s' => if isWhiteSpace c then trimStart s' else s
  end.

Fixpoint trimEnd (s : string) : string :=
  match s with
  | EmptyString => EmptyString
  | String c s' =>
      match trimEnd s' with
      | EmptyString => if isWhiteSpace c then EmptyString else String c EmptyString
      | t => String c t
      end
  end.

Definition trim (s : string) : string := trimEnd (trimStart s).

(** [s.substring(0, n)] for an integer [n] (negative counts as 0). *)
Definition substring0 (s : string) (n : Z) : string :=
  String.substring 0 (Z.to_nat n) s.

(** [s.includes(t)] *)
Fixpoint includes (s t : string) : bool :=
  if String.prefix t s then true
  else match s with
       | EmptyString => false
       | String _ s' => includes s' t
       end.

(** [s.split(" ")] *)
Fixpoint splitSpace (s : string) : list string :=
  match s with
  | EmptyString => [EmptyString]
  | String c s' =>
      if Ascii.eqb c " "%char then EmptyString :: splitSpace s'
      else match splitSpace s' with
           | w :: ws => String c w :: ws
           | [] => [String c EmptyString]
           end
  end.

(** [arr.join(sep)] *)
Fixpoint join (sep : string) (l : list string) : string :=
  match l with
  | [] => EmptyString
  | [x] => x
  | x :: l' => x +:+ sep +:+ join sep l'
  end.

(** A string is truthy when it is not empty; [undefined] is falsy. *)
Definition truthyStr (s : option string) : bool :=
  match s with
  | Some (String _ _) => true
  | _ => false
  end.

(** Number to string for a non-negative integer. *)
Definition natToString (n : nat) : string :=
  pretty n.

(** Template-literal interpolation of a possibly [undefined] string. *)
Definition show (s : option string) : string :=
  match s with
  | Some x => x
  | None => "undefined"
  end.

End JS.

(** ** Data model *)

(** A message of a session: [{role, content, timestamp}]. *)
Record Message := mkMessage {
  msg_role : string;
  msg_content : option string;
  msg_timestamp : Z;
}.

(** The persisted session: [{id, createdAt, lastActivity, messages}].
    Time stamps are milliseconds ([toISOString] is a monotone injection). *)
Record Session := mkSession {
  s_id : string;
  s_createdAt : Z;
  s_lastActivity : Z;
  s_messages : list Message;
}.

(** [this.client] of [RedisService]: [null], the in-memory [Map] (its
    entries, and the pending [setTimeout] deletions as key and delay in
    milliseconds, in registration order), or the Redis connection (the
    server's key space, each key with the TTL in seconds given to SETEX; the
    server answers every command while connected).
    The values are [JSON.stringify] images of sessions; [JSON.parse] gives
    the session back. The connection events that replace a broken
    connection by the [Map] happen between calls, not inside one. *)
Inductive Client : Type :=
| ClientNull
| ClientMap (entries : gmap string Session) (timers : list (string * Z))
| ClientRedis (db : gmap string (Session * option Z)).

Record RedisService := mkRedisService {
  client : Client;
  isConnected : bool;
}.

(** A thrown [Error]: its [message], the [response] of a failed HTTP
    request (status, [data.error.message], [data.message]) and the system
    [code]. *)
Record HttpErrorResponse := mkHttpErrorResponse {
  status : Z;
  data_error_message : option string;
  data_message : option string;
}.

Record JsError := mkJsError {
  message : string;
  response : option HttpErrorResponse;
  code : option string;
}.

Definition Error (msg : string) : JsError :=
  {| message := msg; response := None; code := None |}.

(** The body posted to the embedding provider: [{input, model}]. *)
Record EmbeddingRequest := mkEmbeddingRequest {
  input : list string;
  req_model : string;
}.

(** The provider's answer [response.data]: [{data: [{embedding}], model,
    usage}]; each level may be absent. *)
Record JinaBody := mkJinaBody {
  body_data : option (list (option (option (list JS.number))));
  body_model : option string;
  body_usage : option string;
}.

Record EmbeddingResult := mkEmbeddingResult {
  embedding : list JS.number;
  emb_model : string;
  emb_usage : option string;
  dimensions : nat;
}.

(** Free-form metadata of a stored chunk; [{}] has every field absent. *)
Record Metadata := mkMetadata {
  title : option string;
  source : option string;
  url : option string;
  published : option string;
}.

Definition emptyMetadata : Metadata :=
  {| title := None; source := None; url := None; published := None |}.

(** A stored document of the in-memory vector collection. *)
Record Document := mkDocument {
  doc_id : string;
  doc_content : option string;
  doc_metadata : option Metadata;
}.

(** What [searchSimilar] returns: four index-aligned arrays. *)
Record SearchResults := mkSearchResults {
  documents : list (option string);
  metadatas : list (option Metadata);
  distances : list (option JS.number);
  ids : list string;
}.

(** What the index answers to [collection.query]: one array per query;
    the fields are [results.documents[0]] and its like, [None] when falsy. *)
Record ChromaResults := mkChromaResults {
  chroma_documents : option (list (option string));
  chroma_metadatas : option (list (option Metadata));
  chroma_distances : option (list (option JS.number));
  chroma_ids : option (list string);
}.

(** The [options] object of a query. *)
Record Options := mkOptions {
  topK : option JS.number;
  similarityThreshold : option JS.number;
  maxContextLength : option JS.number;
  filter : option string;
  temperature : option JS.number;
  topP : option JS.number;
  maxTokens : option JS.number;
  systemMessage : option string;
}.

Definition noOptions : Options :=
  {| topK := None; similarityThreshold := None; maxContextLength := None;
     filter := None; temperature := None; topP := None; maxTokens := None;
     systemMessage := None |}.

Record GenerationConfig := mkGenerationConfig {
  gc_temperature : JS.number;
  gc_topP : JS.number;
  maxOutputTokens : JS.number;
}.

(** A request to the generation provider. *)
Inductive LlmRequest : Type :=
| GenerateContent (prompt : string) (cfg : GenerationConfig)
| GenerateContentStream (prompt : string) (cfg : GenerationConfig).

(** The provider's incremental answer: the fragments the stream yields and,
    when the stream breaks after them, the error it raises. *)
Record ContentStream := mkContentStream {
  fragments : list string;
  breaks : option JsError;
}.

(** The argument of the [onChunk] callback. *)
Record ChunkData := mkChunkData {
  chunk : string;
  fullText : string;
  chunkIndex : nat;
  isComplete : bool;
  chunk_error : bool;
}.

(** Events emitted on the socket. *)
Inductive SocketEvent : Type :=
| typing (on : bool)
| message_chunk (sessionId : option string) (chunk fullText : string)
    (index : nat) (isComplete : bool) (timestamp : Z)
| message_complete (sessionId : option string) (fullResponse : string)
    (timestamp : Z)
| error_event (msg : string) (err : string) (timestamp : Z).

(** ** The services' constant fields *)

Record EmbeddingsService := mkEmbeddingsService {
  emb_apiKey : option string;
  emb_baseUrl : string;
  emb_modelName : string;
  emb_maxTokens : Z;
  emb_isAvailable : bool;
}.

Record LLMService := mkLLMService {
  llm_apiKey : option string;
  llm_model : string;
  llm_maxTokens : JS.number;
  llm_temperature : JS.number;
  llm_topP : JS.number;
  llm_isAvailable : bool;
}.

(** [this.client] of [VectorDBService]: [null], the fallback [Map] (with
    [this.collection], the stored documents in insertion order), or the
    index client. *)
Inductive VectorClient : Type :=
| VectorNull
| VectorMap (collection : list Document)
| VectorChroma.

Record VectorDBService := mkVectorDBService {
  vec_client : VectorClient;
  vec_isInitialized : bool;
}.

(** ** The outside world and the mutable state *)

(** What the program reads from outside.  An external call is answered
    according to the moment it is made: [n] is the number of interactions
    made before it. *)
Record Env := mkEnv {
  (** [parseInt(process.env.X)]; [None] is [NaN] (unset or not a number) *)
  SESSION_TTL : option Z;
  MAX_SESSION_MESSAGES : option Z;
  MAX_CONTEXT_CHUNKS : option Z;
  VECTOR_SEARCH_TOP_K : option Z;
  (** [new Date()] *)
  clock : nat -> Z;
  uuidv4 : nat -> string;
  embeddingsService : EmbeddingsService;
  llmService : LLMService;
  vectorDbService : VectorDBService;
  (** [axios.post(baseUrl, requestData, ...)]: throws or answers
      [response.data] *)
  axios_post : nat -> EmbeddingRequest -> JsError + option JinaBody;
  (** [collection.query(...)]; [None] when it throws *)
  chroma_query : nat -> list JS.number -> JS.number -> option string -> option ChromaResults;
  (** [geminiModel.generateContent(...)] then [response.text()] *)
  generateContent : nat -> string -> GenerationConfig -> JsError + string;
  (** [geminiModel.generateContentStream(...)] *)
  generateContentStream : nat -> string -> GenerationConfig -> JsError + ContentStream;
}.

Record World := mkWorld {
  redis : RedisService;
  emitted : list SocketEvent;
  embeddingRequests : list EmbeddingRequest;
  llmRequests : list LlmRequest;
  ticks : nat;
}.

Definition setRedis (r : RedisService) (w : World) : World :=
  {| redis := r; emitted := emitted w; embeddingRequests := embeddingRequests w;
     llmRequests := llmRequests w; ticks := ticks w |}.

Definition addEmitted (e : SocketEvent) (w : World) : World :=
  {| redis := redis w; emitted := emitted w ++ [e];
     embeddingRequests := embeddingRequests w;
     llmRequests := llmRequests w; ticks := ticks w |}.

Definition addEmbeddingRequest (r : EmbeddingRequest) (w : World) : World :=
  {| redis := redis w; emitted := emitted w;
     embeddingRequests := embeddingRequests w ++ [r];
     llmRequests := llmRequests w; ticks := ticks w |}.

Definition addLlmRequest (r : LlmRequest) (w : World) : World :=
  {| redis := redis w; emitted := emitted w;
     embeddingRequests := embeddingRequests w;
     llmRequests := llmRequests w ++ [r]; ticks := ticks w |}.

Definition nextTick (w : World) : World :=
  {| redis := redis w; emitted := emitted w;
     embeddingRequests := embeddingRequests w;
     llmRequests := llmRequests w; ticks := S (ticks w) |}.

(** ** The monad of [async] methods *)

Inductive Res (A : Type) : Type :=
| Ok (a : A)
| Throw (e : JsError).
Arguments Ok {A} a.
Arguments Throw {A} e.

Definition M (A : Type) : Type := Env -> World -> Res A * World.

Definition ret {A} (a : A) : M A := fun _ w => (Ok a, w).

Definition bind {A B} (c : M A) (k : A -> M B) : M B :=
  fun env w =>
    match c env w with
    | (Ok a, w') => k a env w'
    | (Throw e, w') => (Throw e, w')
    end.

Definition throw {A} (e : JsError) : M A := fun _ w => (Throw e, w).

(** [try { c } catch (error) { h error }] *)
Definition try_catch {A} (c : M A) (h : JsError -> M A) : M A :=
  fun env w =>
    match c env w with
    | (Ok a, w') => (Ok a, w')
    | (Throw e, w') => h e env w'
    end.

Definition ask : M Env := fun env w => (Ok env, w).
Definition getWorld : M World := fun _ w => (Ok w, w).
Definition modify (f : World -> World) : M unit := fun _ w => (Ok tt, f w).

(** The moment of an interaction with the outside. *)
Definition tick : M nat := fun _ w => (Ok (ticks w), nextTick w).

Declare Scope js_scope.
Delimit Scope js_scope with js.
Notation "'do' x <- c ; k" := (bind c (fun x => k))
  (at level 10, x name, c at level 100, k at level 200) : js_scope.
Local Open Scope js_scope.

(** [new Date()] *)
Definition Date_now : M Z :=
  do env <- ask; do n <- tick; ret (clock env n).

(** [parseInt(process.env.X) || d] *)
Definition parseIntOr (v : option Z) (d : Z) : Z :=
  match v with
  | Some 0%Z | None => d
  | Some n => n
  end.

(** ** services/redis.js : the session store *)

Module Redis.

Definition getService : M RedisService :=
  do w <- getWorld; ret (redis w).

Definition setClient (c : Client) : M unit :=
  modify (fun w => setRedis {| client := c; isConnected := isConnected (redis w) |} w).

(** [this.isConnected && this.client] *)
Definition isAvailable (r : RedisService) : bool :=
  isConnected r && match client r with ClientNull => false | _ => true end.

Definition nullClient : JsError :=
  Error "Cannot read properties of null".

(** [if (ttlSeconds)] *)
Definition truthyTtl (ttlSeconds : option Z) : option Z :=
  match ttlSeconds with
  | Some 0%Z | None => None
  | Some t => Some t
  end.

(** [async set(key, value, ttlSeconds = null)] *)
Definition set (key : string) (value : Session) (ttlSeconds : option Z) : M bool :=
  try_catch
    (do r <- getService;
     if negb (isAvailable r) then throw (Error "Redis not available")
     else match client r with
          | ClientMap entries timers =>
              let timers' :=
                match truthyTtl ttlSeconds with
                | Some t => timers ++ [(key, (t * 1000)%Z)]
                | None => timers
                end in
              do _ <- setClient (ClientMap (<[key := value]> entries) timers');
              ret true
          | ClientRedis db =>
              do _ <- setClient (ClientRedis (<[key := (value, truthyTtl ttlSeconds)]> db));
              ret true
          | ClientNull => throw nullClient
          end)
    (fun _ => ret false).

(** The callback that [set] hands to [setTimeout] on the in-memory store,
    [() => { this.client.delete(key); }], as it acts on the [Map]. *)
Definition deleteOnTimeout (key : string) (c : Client) : Client :=
  match c with
  | ClientMap entries timers => ClientMap (delete key entries) timers
  | _ => c
  end.

(** [async get(key)] *)
Definition get (key : string) : M (option Session) :=
  try_catch
    (do r <- getService;
     if negb (isAvailable r) then ret None
     else match client r with
          | ClientMap entries _ => ret (entries !! key)
          | ClientRedis db => ret (fst <$> db !! key)
          | ClientNull => throw nullClient
          end)
    (fun _ => ret None).

(** [generateSessionId()] *)
Definition generateSessionId : M string :=
  do env <- ask; do n <- tick; ret ("session:" +:+ uuidv4 env n).

Definition sessionKey (sessionId : option string) : string :=
  "session:" +:+ JS.show sessionId.

Definition sessionTtl (env : Env) : Z := parseIntOr (SESSION_TTL env) 86400.

(** [async createSession(sessionId = null)] *)
Definition createSession (sessionId : option string) : M (option string) :=
  try_catch
    (do id <- (if JS.truthyStr sessionId then ret (JS.show sessionId)
               else generateSessionId);
     do created <- Date_now;
     do active <- Date_now;
     let session :=
       {| s_id := id; s_createdAt := created; s_lastActivity := active;
          s_messages := [] |} in
     do env <- ask;
     do _ <- set ("session:" +:+ id) session (Some (sessionTtl env));
     ret (Some id))
    (fun _ => ret None).

Definition touch (now : Z) (s : Session) : Session :=
  {| s_id := s_id s; s_createdAt := s_createdAt s; s_lastActivity := now;
     s_messages := s_messages s |}.

Definition withMessages (ms : list Message) (s : Session) : Session :=
  {| s_id := s_id s; s_createdAt := s_createdAt s;
     s_lastActivity := s_lastActivity s; s_messages := ms |}.

(** [async getSession(sessionId)] *)
Definition getSession (sessionId : option string) : M (option Session) :=
  try_catch
    (do session <- get (sessionKey sessionId);
     match session with
     | Some session =>
         do now <- Date_now;
         let session := touch now session in
         do env <- ask;
         do _ <- set (sessionKey sessionId) session (Some (sessionTtl env));
         ret (Some session)
     | None => ret None
     end)
    (fun _ => ret None).

(** [async updateSession(sessionId, sessionData)] *)
Definition updateSession (sessionId : option string) (sessionData : Session) : M bool :=
  try_catch
    (do now <- Date_now;
     let sessionData := touch now sessionData in
     do env <- ask;
     do _ <- set (sessionKey sessionId) sessionData (Some (sessionTtl env));
     ret true)
    (fun _ => ret false).

Definition maxMessages (env : Env) : Z := parseIntOr (MAX_SESSION_MESSAGES env) 50.

(** [async addMessage(sessionId, message)] *)
Definition addMessage (sessionId : option string) (message : Message) : M bool :=
  try_catch
    (do session <- getSession sessionId;
     match session with
     | None => ret false
     | Some session =>
         do now <- Date_now;
         let messageWithTimestamp :=
           {| msg_role := msg_role message; msg_content := msg_content message;
              msg_timestamp := now |} in
         let pushed := s_messages session ++ [messageWithTimestamp] in
         do env <- ask;
         let kept :=
           if (maxMessages env <? Z.of_nat (length pushed))%Z
           then JS.sliceFrom pushed (JS.ofZ (- maxMessages env))
           else pushed in
         do _ <- updateSession sessionId (withMessages kept session);
         ret true
     end)
    (fun _ => ret false).

(** [async getSessionMessages(sessionId)] *)
Definition getSessionMessages (sessionId : option string) : M (list Message) :=
  try_catch
    (do session <- getSession sessionId;
     ret (match session with Some s => s_messages s | None => [] end))
    (fun _ => ret []).

(** [async clearSessionMessages(sessionId)] *)
Definition clearSessionMessages (sessionId : option string) : M bool :=
  try_catch
    (do session <- getSession sessionId;
     match session with
     | None => ret false
     | Some session =>
         do _ <- updateSession sessionId (withMessages [] session);
         ret true
     end)
    (fun _ => ret false).

(** [async del(key)] *)
Definition del (key : string) : M bool :=
  try_catch
    (do r <- getService;
     if negb (isAvailable r) then ret false
     else match client r with
          | ClientMap entries timers =>
              do _ <- setClient (ClientMap (delete key entries) timers);
              ret (bool_decide (is_Some (entries !! key)))
          | ClientRedis db =>
              do _ <- setClient (ClientRedis (delete key db));
              ret (bool_decide (is_Some (db !! key)))
          | ClientNull => throw nullClient
          end)
    (fun _ => ret false).

(** [async exists(key)] *)
Definition exists_ (key : string) : M bool :=
  try_catch
    (do r <- getService;
     if negb (isAvailable r) then ret false
     else match client r with
          | ClientMap entries _ => ret (bool_decide (is_Some (entries !! key)))
          | ClientRedis db => ret (bool_decide (is_Some (db !! key)))
          | ClientNull => throw nullClient
          end)
    (fun _ => ret false).

(** [async expire(key, seconds)]; on the server EXPIRE answers 1 for a key
    that exists, and a TTL that is not positive deletes the key at once. *)
Definition expire (key : string) (seconds : Z) : M bool :=
  try_catch
    (do r <- getService;
     if negb (isAvailable r) then ret false
     else match client r with
          | ClientMap _ _ => ret false
          | ClientRedis db =>
              match db !! key with
              | Some (value, _) =>
                  do _ <- setClient
                            (ClientRedis
                               (if (seconds <=? 0)%Z then delete key db
                                else <[key := (value, Some seconds)]> db));
                  ret true
              | None => ret false
              end
          | ClientNull => throw nullClient
          end)
    (fun _ => ret false).

(** [async deleteSession(sessionId)] *)
Definition deleteSession (sessionId : option string) : M bool :=
  try_catch
    (do result <- del (sessionKey sessionId);
     ret result)
    (fun _ => ret false).

End Redis.

(** ** services/embeddings.js : the embedding client *)



Module Embeddings.

(** [this.isAvailable && this.apiKey] *)
Definition isServiceAvailable (this : EmbeddingsService) : bool :=
  emb_isAvailable this && JS.truthyStr (emb_apiKey this).

(** [await axios.post(this.baseUrl, requestData, {...})] *)
Definition post (requestData : EmbeddingRequest) : M (option JinaBody) :=
  do env <- ask;
  do n <- tick;
  do _ <- modify (addEmbeddingRequest requestData);
  match axios_post env n requestData with
  | inl e => throw e
  | inr body => ret body
  end.

(** [a || b || "Unknown API error"] on possibly absent strings *)
Definition firstTruthy (a b : option string) (d : string) : string :=
  if JS.truthyStr a then JS.show a
  else if JS.truthyStr b then JS.show b
  else d.

(** The [catch] block of [generateEmbedding]. *)
Definition rethrow {A} (error : JsError) : M A :=
  match response error with
  | Some resp =>
      let message :=
        firstTruthy (data_error_message resp) (data_message resp) "Unknown API error" in
      if (status resp =? 401)%Z then throw (Error "Invalid Jina API key")
      else if (status resp =? 429)%Z then throw (Error "Jina API rate limit exceeded")
      else if (500 <=? status resp)%Z then throw (Error "Jina API server error")
      else throw (Error ("Jina API error: " +:+ message))
  | None =>
      match code error with
      | Some c =>
          if String.eqb c "ECONNREFUSED" || String.eqb c "ETIMEDOUT"
          then throw (Error "Network error - unable to connect to Jina API")
          else throw error
      | None => throw error
      end
  end.

(** [async generateEmbedding(text, options = {})] *)
Definition generateEmbedding (text : option string) : M EmbeddingResult :=
  try_catch
    (do env <- ask;
     let this := embeddingsService env in
     if negb (isServiceAvailable this)
     then throw (Error "Embeddings service not available - missing API key")
     else if negb (JS.truthyStr text)
     then throw (Error "Text input is required and must be a string")
     else
       let cleanText := JS.trim (JS.show text) in
       if (String.length cleanText =? 0)%nat
       then throw (Error "Text input cannot be empty")
       else
         let text :=
           if (emb_maxTokens this * 4 <? Z.of_nat (String.length cleanText))%Z
           then Some (JS.substring0 cleanText (emb_maxTokens this * 4))
           else text in
         let requestData :=
           {| input := [cleanText]; req_model := "jina-embeddings-v2-base-en" |} in
         do response <- post requestData;
         match response with
         | Some {| body_data := Some (Some item :: _); body_model := model;
                   body_usage := usage |} =>
             match item with
             | Some ((_ :: _) as embedding) =>
                 ret {| embedding := embedding;
                        emb_model := if JS.truthyStr model then JS.show model
                                     else emb_modelName this;
                        emb_usage := usage;
                        dimensions := length embedding |}
             | _ => throw (Error "Invalid embedding format received")
             end
         | _ => throw (Error "Invalid response format from Jina API")
         end)
    rethrow.

(** [async generateQueryEmbedding(query)] *)
Definition generateQueryEmbedding (query : option string) : M EmbeddingResult :=
  generateEmbedding query.






End Embeddings.

(** ** services/vectordb.js : the vector search gateway *)

Module VectorDB.

(** [this.isInitialized && (this.client || this.collection)] *)
Definition isAvailable (this : VectorDBService) : bool :=
  vec_isInitialized this &&
  match vec_client this with VectorNull => false | _ => true end.

Definition noResults : SearchResults :=
  {| documents := []; metadatas := []; distances := []; ids := [] |}.

(** [async searchSimilar(queryEmbedding, nResults = 5, filter = null)] *)
Definition searchSimilar (queryEmbedding : list JS.number) (nResults : JS.number)
    (filter : option string) : M SearchResults :=
  try_catch
    (do env <- ask;
     let this := vectorDbService env in
     if negb (isAvailable this) then throw (Error "Vector database not available")
     else match vec_client this with
          | VectorMap collection =>
              let results := JS.slice collection (JS.Fin 0) nResults in
              ret {| documents :=
                       map (fun doc => Some (if JS.truthyStr (doc_content doc)
                                             then JS.show (doc_content doc)
                                             else EmptyString)) results;
                     metadatas :=
                       map (fun doc => Some (default emptyMetadata (doc_metadata doc))) results;
                     distances := map (fun _ => Some (JS.Fin (1 # 2))) results;
                     ids := map doc_id results |}
          | VectorChroma =>
              do n <- tick;
              match chroma_query env n queryEmbedding nResults filter with
              | Some results =>
                  ret {| documents := default [] (chroma_documents results);
                         metadatas := default [] (chroma_metadatas results);
                         distances := default [] (chroma_distances results);
                         ids := default [] (chroma_ids results) |}
              | None => throw (Error "query failed")
              end
          | VectorNull => throw (Error "Cannot read properties of null")
          end)
    (fun _ => ret noResults).

End VectorDB.

(** ** Retrieval candidates, context and answers *)

(** What [filterRelevantContext] pushes: [{content, metadata, similarity, id}]. *)
Record Candidate := mkCandidate {
  cand_content : option string;
  cand_metadata : Metadata;
  similarity : JS.number;
  cand_id : option string;
}.

(** What [prepareContext] pushes: [{content, similarity, metadata}]. *)
Record ContextItem := mkContextItem {
  ctx_content : string;
  ctx_similarity : JS.number;
  ctx_metadata : Metadata;
}.

Record Usage := mkUsage {
  promptTokens : nat;
  completionTokens : nat;
  totalTokens : nat;
}.

(** The answer object of the generation client: [{text, model, chunks, usage}]. *)
Record LLMResponse := mkLLMResponse {
  text : string;
  resp_model : option string;
  resp_chunks : option nat;
  resp_usage : option Usage;
}.

Definition nl : string := String (ascii_of_nat 10) EmptyString.
Definition dquote : string := String (ascii_of_nat 34) EmptyString.

(** ** services/llm.js : the generation client *)

Module LLM.

(** [this.isAvailable && this.apiKey] *)
Definition isServiceAvailable (this : LLMService) : bool :=
  llm_isAvailable this && JS.truthyStr (llm_apiKey this).

(** [estimateTokens(text)]: [Math.ceil(text.length / 4)] *)
Definition estimateTokens (text : string) : nat :=
  match text with
  | EmptyString => 0
  | _ => Nat.div (String.length text + 3) 4
  end.

Definition generationConfig (this : LLMService) (options : Options) : GenerationConfig :=
  {| gc_temperature := JS.or (temperature options) (llm_temperature this);
     gc_topP := JS.or (topP options) (llm_topP this);
     maxOutputTokens := JS.or (maxTokens options) (llm_maxTokens this) |}.

Definition usageOf (prompt text : string) : Usage :=
  {| promptTokens := estimateTokens prompt;
     completionTokens := estimateTokens text;
     totalTokens := estimateTokens (prompt +:+ text) |}.

(** The [catch] block of [generateResponse]. *)
Definition rethrow {A} (error : JsError) : M A :=
  if JS.includes (message error) "API_KEY_INVALID"
  then throw (Error "Invalid Gemini API key")
  else if JS.includes (message error) "RATE_LIMIT"
  then throw (Error "Gemini API rate limit exceeded")
  else if JS.includes (message error) "SAFETY"
  then throw (Error "Content blocked by safety filters")
  else throw (Error ("LLM generation failed: " +:+ message error)).

(** [async generateResponse(prompt, options = {})] *)
Definition generateResponse (prompt : string) (options : Options) : M LLMResponse :=
  try_catch
    (do env <- ask;
     let this := llmService env in
     if negb (isServiceAvailable this)
     then throw (Error "LLM service not available - missing API key")
     else if negb (JS.truthyStr (Some prompt))
     then throw (Error "Prompt is required and must be a string")
     else
       let generationConfig := generationConfig this options in
       do n <- tick;
       do _ <- modify (addLlmRequest (GenerateContent prompt generationConfig));
       match generateContent env n prompt generationConfig with
       | inl e => throw e
       | inr text =>
           if (String.length (JS.trim text) =? 0)%nat
           then throw (Error "Empty response from Gemini API")
           else ret {| text := JS.trim text;
                       resp_model := Some (llm_model this);
                       resp_chunks := None;
                       resp_usage := Some (usageOf prompt text) |}
       end)
    rethrow.

(** [onChunk && typeof onChunk === "function"] then [await onChunk(c)] *)
Definition callOnChunk (onChunk : option (ChunkData -> M unit)) (c : ChunkData) : M unit :=
  match onChunk with
  | Some f => f c
  | None => ret tt
  end.

(** [for await (const chunk of result.stream) { ... }] with the running
    [fullText] and [chunkCount] *)
Fixpoint streamLoop (onChunk : option (ChunkData -> M unit)) (stream : list string)
    (fullText : string) (chunkCount : nat) : M (string * nat) :=
  match stream with
  | [] => ret (fullText, chunkCount)
  | chunkText :: stream' =>
      if JS.truthyStr (Some chunkText) then
        let fullText := fullText +:+ chunkText in
        let chunkCount := S chunkCount in
        do _ <- callOnChunk onChunk
                  {| chunk := chunkText; fullText := fullText;
                     chunkIndex := chunkCount; isComplete := false;
                     chunk_error := false |};
        streamLoop onChunk stream' fullText chunkCount
      else streamLoop onChunk stream' fullText chunkCount
  end.

(** [async generateStreamingResponse(prompt, options = {}, onChunk = null)] *)
Definition generateStreamingResponse (prompt : string) (options : Options)
    (onChunk : option (ChunkData -> M unit)) : M LLMResponse :=
  try_catch
    (do env <- ask;
     let this := llmService env in
     if negb (isServiceAvailable this)
     then throw (Error "LLM service not available - missing API key")
     else
       let generationConfig := generationConfig this options in
       do n <- tick;
       do _ <- modify (addLlmRequest (GenerateContentStream prompt generationConfig));
       match generateContentStream env n prompt generationConfig with
       | inl e => throw e
       | inr result =>
           do acc <- streamLoop onChunk (fragments result) EmptyString 0;
           do _ <- match breaks result with
                   | Some e => throw e
                   | None => ret tt
                   end;
           let fullText := fst acc in
           let chunkCount := snd acc in
           do _ <- callOnChunk onChunk
                     {| chunk := EmptyString; fullText := fullText;
                        chunkIndex := chunkCount; isComplete := true;
                        chunk_error := false |};
           ret {| text := JS.trim fullText;
                  resp_model := Some (llm_model this);
                  resp_chunks := Some chunkCount;
                  resp_usage := Some (usageOf prompt fullText) |}
       end)
    (fun error =>
       throw (Error ("Streaming generation failed: " +:+ message error))).

Definition defaultSystemMessage : string :=
  "You are a helpful AI assistant that answers questions based on the provided context. You should:"
  +:+ nl +:+ nl +:+
  "1. Answer questions accurately based on the given context" +:+ nl +:+
  "2. If the context doesn't contain enough information to answer the question, say so honestly"
  +:+ nl +:+
  "3. Keep your answers concise and relevant" +:+ nl +:+
  "4. Cite information from the context when appropriate" +:+ nl +:+
  "5. Be conversational and helpful in tone".

(** [buildRAGPrompt(query, context, options = {})] *)
Definition buildRAGPrompt (query : option string) (context : list ContextItem)
    (options : Options) : string :=
  let systemMessage :=
    if JS.truthyStr (systemMessage options) then JS.show (systemMessage options)
    else defaultSystemMessage in
  let contextText :=
    JS.join (nl +:+ nl)
      (imap (fun i ctx =>
               "[" +:+ JS.natToString (i + 1) +:+ "] " +:+
               (if JS.truthyStr (Some (ctx_content ctx)) then ctx_content ctx
                else "[object Object]"))
            context) in
  systemMessage +:+ nl +:+ nl +:+ "CONTEXT:" +:+ nl +:+ contextText +:+ nl +:+ nl +:+
  "QUESTION: " +:+ JS.show query +:+ nl +:+ nl +:+ "ANSWER:".

(** [async generateRAGResponse(query, context, options = {})] *)
Definition generateRAGResponse (query : option string) (context : list ContextItem)
    (options : Options) : M LLMResponse :=
  try_catch
    (let systemPrompt := buildRAGPrompt query context options in
     generateResponse systemPrompt options)
    (fun error => throw error).

(** [async generateStreamingRAGResponse(query, context, options = {}, onChunk = null)] *)
Definition generateStreamingRAGResponse (query : option string)
    (context : list ContextItem) (options : Options)
    (onChunk : option (ChunkData -> M unit)) : M LLMResponse :=
  try_catch
    (let systemPrompt := buildRAGPrompt query context options in
     generateStreamingResponse systemPrompt options onChunk)
    (fun error => throw error).

(** [validateInput(text, maxLength = 30000)]; [maxLength] is an integer,
    [None] when the argument is left out. *)
Definition validateInput (text : option string) (maxLength : option Z) : JsError + string :=
  let maxLength := default 30000%Z maxLength in
  if negb (JS.truthyStr text) then inl (Error "Input must be a non-empty string")
  else
    let cleanText := JS.trim (JS.show text) in
    if (String.length cleanText =? 0)%nat then inl (Error "Input cannot be empty")
    else if (maxLength <? Z.of_nat (String.length cleanText))%Z
    then inr (JS.substring0 cleanText maxLength)
    else inr cleanText.
End LLM.

(** ** services/ragPipeline.js : the pipeline orchestrator *)

Record RAGPipelineService := mkRAGPipelineService {
  rag_topK : JS.number;
  rag_similarityThreshold : JS.number;
  rag_maxContextLength : JS.number;
  rag_isInitialized : bool;
}.

(** A recorded stage: [{step, name, status}] (time stamps and durations are
    left out of the embedding). *)
Record Step := mkStep {
  step : nat;
  step_name : string;
  step_status : string;
}.

Record PipelineMetadata := mkPipelineMetadata {
  queryEmbeddingDimensions : nat;
  searchResultsCount : nat;
  relevantContextCount : nat;
  finalContextLength : option nat;
  responseLength : option nat;
}.

(** [fallbackResponse] of a failed query: the answer object of
    [generateFallbackResponse], or the string of the [.catch] handler. *)
Inductive FallbackResponse : Type :=
| FallbackObject (r : LLMResponse)
| FallbackString (s : string).

(** The result of [processQuery]. *)
Inductive QueryResult : Type :=
| QuerySuccess (query : option string) (response : string)
    (context : list ContextItem) (metadata : PipelineMetadata) (steps : list Step)
| QueryFailure (query : option string) (error : string)
    (fallbackResponse : FallbackResponse).

(** The result of [processStreamingQuery]. *)
Inductive StreamingResult : Type :=
| StreamSuccess (query : option string) (response : string)
    (context : list ContextItem) (chunks : option nat) (usage : option Usage)
| StreamFailure (query : option string) (error : string).

Module RAG.

(** [constructor()]: [config.rag.vectorSearchTopK || 3], [0.1],
    [config.rag.maxContextChunks || 5], with the configuration's own
    [parseInt(process.env.X) || d]. *)
Definition constructor (env : Env) : RAGPipelineService :=
  {| rag_topK :=
       JS.or (Some (JS.ofZ (parseIntOr (VECTOR_SEARCH_TOP_K env) 3))) (JS.ofZ 3);
     rag_similarityThreshold := JS.double (1 # 10);
     rag_maxContextLength :=
       JS.or (Some (JS.ofZ (parseIntOr (MAX_CONTEXT_CHUNKS env) 5))) (JS.ofZ 5);
     rag_isInitialized := false |}.

(** [async initialize()] *)
Definition initialize (this : RAGPipelineService) (env : Env) : RAGPipelineService * bool :=
  let ok :=
    Embeddings.isServiceAvailable (embeddingsService env) &&
    VectorDB.isAvailable (vectorDbService env) &&
    LLM.isServiceAvailable (llmService env) in
  ({| rag_topK := rag_topK this;
      rag_similarityThreshold := rag_similarityThreshold this;
      rag_maxContextLength := rag_maxContextLength this;
      rag_isInitialized := ok |}, ok).

(** [isReady()] *)
Definition isReady (this : RAGPipelineService) (env : Env) : bool :=
  rag_isInitialized this &&
  Embeddings.isServiceAvailable (embeddingsService env) &&
  VectorDB.isAvailable (vectorDbService env) &&
  LLM.isServiceAvailable (llmService env).

(** [searchResults.distances[i] || 0] *)
Definition distanceAt (searchResults : SearchResults) (i : nat) : JS.number :=
  JS.or (mjoin (distances searchResults !! i)) (JS.Fin 0).

(** The object built for index [i] in the loop of [filterRelevantContext]. *)
Definition candidateAt (searchResults : SearchResults) (i : nat) : Candidate :=
  let distance := distanceAt searchResults i in
  let similarity := JS.sub (JS.Fin 1) distance in
  {| cand_content := mjoin (documents searchResults !! i);
     cand_metadata := default emptyMetadata (mjoin (metadatas searchResults !! i));
     similarity := similarity;
     cand_id := ids searchResults !! i |}.

(** The comparator [(a, b) => b.similarity - a.similarity]. *)
Definition bySimilarity (a b : Candidate) : JS.number :=
  JS.sub (similarity b) (similarity a).

(** [filterRelevantContext(searchResults, threshold)] *)
Definition filterRelevantContext (searchResults : SearchResults)
    (threshold : JS.number) : list Candidate :=
  let relevant :=
    fold_left
      (fun relevant i =>
         let c := candidateAt searchResults i in
         if JS.ge (similarity c) threshold then relevant ++ [c] else relevant)
      (seq 0 (length (documents searchResults))) [] in
  JS.sort bySimilarity relevant.

(** The text pushed for one candidate by [prepareContext]. *)
Definition contextItemOf (item : Candidate) : ContextItem :=
  let content :=
    if JS.truthyStr (cand_content item) then JS.show (cand_content item)
    else EmptyString in
  let metadata := cand_metadata item in
  let contextItem :=
    if JS.truthyStr (title metadata) || JS.truthyStr (source metadata)
       || JS.truthyStr (url metadata)
    then
      let sources :=
        (if JS.truthyStr (title metadata)
         then ["Title: " +:+ JS.show (title metadata)] else []) ++
        (if JS.truthyStr (source metadata)
         then ["Source: " +:+ JS.show (source metadata)] else []) ++
        (if JS.truthyStr (published metadata)
         then ["Published: " +:+ JS.show (published metadata)] else []) in
      content +:+ nl +:+ nl +:+ "[" +:+ JS.join " | " sources +:+ "]"
    else content in
  {| ctx_content := contextItem; ctx_similarity := similarity item;
     ctx_metadata := metadata |}.

(** The loop of [prepareContext], with its [break]. *)
Fixpoint prepareContextLoop (relevantContext : list Candidate) (maxLength : JS.number)
    (context : list ContextItem) : list ContextItem :=
  match relevantContext with
  | [] => context
  | item :: rest =>
      if JS.ge (JS.ofNat (length context)) maxLength then context
      else prepareContextLoop rest maxLength (context ++ [contextItemOf item])
  end.

(** [prepareContext(relevantContext, maxLength)] *)
Definition prepareContext (relevantContext : list Candidate) (maxLength : JS.number)
    : list ContextItem :=
  prepareContextLoop relevantContext maxLength [].

Definition fallbackPrompt (query : option string) : string :=
  "The user asked: " +:+ dquote +:+ JS.show query +:+ dquote +:+ nl +:+ nl +:+
  "I don't have specific information in my knowledge base to answer this question directly. Please provide a helpful response explaining that you don't have enough relevant information, but offer to help in other ways or suggest how they might find the information they need."
  +:+ nl +:+ nl +:+
  "Be polite, helpful, and acknowledge their question.".

Definition fallbackOptions : Options :=
  {| topK := None; similarityThreshold := None; maxContextLength := None;
     filter := None; temperature := Some (JS.double (7 # 10)); topP := None;
     maxTokens := Some (JS.Fin 150); systemMessage := None |}.

Definition apology : string :=
  "I apologize, but I don't have enough information in my knowledge base to answer your question. Could you try rephrasing your question or asking about a different topic?".

Definition technicalDifficulties : string :=
  "I apologize, but I'm having technical difficulties processing your request right now.".

(** [async generateFallbackResponse(query)] *)
Definition generateFallbackResponse (query : option string) : M LLMResponse :=
  try_catch
    (do response <- LLM.generateResponse (fallbackPrompt query) fallbackOptions;
     ret response)
    (fun _ =>
       ret {| text := apology; resp_model := None; resp_chunks := None;
              resp_usage := None |}).

Definition completed (n : nat) (name : string) : Step :=
  {| step := n; step_name := name; step_status := "completed" |}.

(** The [try] block of [processQuery]. *)
Definition processQueryTry (this : RAGPipelineService) (query : option string)
    (options : Options) : M QueryResult :=
  do env <- ask;
  if negb (isReady this env)
  then throw (Error "RAG pipeline not ready - please check service availability")
  else match query with
  | None => throw (Error "Cannot read properties of undefined (reading 'substring')")
  | Some _ =>
    do queryEmbedding <- Embeddings.generateQueryEmbedding query;
    do searchResults <-
      VectorDB.searchSimilar (embedding queryEmbedding)
        (JS.or (topK options) (rag_topK this)) (filter options);
    let relevantContext :=
      filterRelevantContext searchResults
        (JS.or (similarityThreshold options) (rag_similarityThreshold this)) in
    let steps3 :=
      [completed 1 "embedding_generation"; completed 2 "vector_search";
       completed 3 "context_filtering"] in
    if (length relevantContext =? 0)%nat then
      do response <- generateFallbackResponse query;
      ret (QuerySuccess query (text response) []
             {| queryEmbeddingDimensions := dimensions queryEmbedding;
                searchResultsCount := length (documents searchResults);
                relevantContextCount := length relevantContext;
                finalContextLength := None; responseLength := None |}
             steps3)
    else
      let contextData :=
        prepareContext relevantContext
          (JS.or (maxContextLength options) (rag_maxContextLength this)) in
      do llmResponse <- LLM.generateRAGResponse query contextData options;
      ret (QuerySuccess query (text llmResponse) contextData
             {| queryEmbeddingDimensions := dimensions queryEmbedding;
                searchResultsCount := length (documents searchResults);
                relevantContextCount := length relevantContext;
                finalContextLength := Some (length contextData);
                responseLength := Some (String.length (text llmResponse)) |}
             (steps3 ++ [completed 4 "context_preparation";
                         completed 5 "llm_generation"]))
  end.

(** [async processQuery(query, options = {})]: the [try] block and the
    [catch] block. *)
Definition processQuery (this : RAGPipelineService) (query : option string)
    (options : Options) : M QueryResult :=
  try_catch
    (processQueryTry this query options)
    (fun error =>
       do fallbackResponse <-
         try_catch
           (do r <- generateFallbackResponse query; ret (FallbackObject r))
           (fun _ => ret (FallbackString technicalDifficulties));
       ret (QueryFailure query (message error) fallbackResponse)).

Definition noContextText : string :=
  "I don't have enough relevant information to answer your question.".

Definition streamErrorText : string :=
  "I apologize, but I encountered an error processing your request.".

(** [for (let i = 0; i < words.length; i++) { await onChunk(...) ... }],
    over the indices still to visit *)
Fixpoint streamWords (onChunk : ChunkData -> M unit) (words : list string)
    (indices : list nat) : M unit :=
  match indices with
  | [] => ret tt
  | i :: indices' =>
      do _ <- onChunk {| chunk := default "undefined" (words !! i) +:+ " ";
                         fullText := JS.join " " (JS.slice words (JS.Fin 0) (JS.ofNat (i + 1)));
                         chunkIndex := i; isComplete := false; chunk_error := false |};
      streamWords onChunk words indices'
  end.

(** [async processStreamingQuery(query, onChunk, options = {})] *)
Definition processStreamingQuery (this : RAGPipelineService) (query : option string)
    (onChunk : ChunkData -> M unit) (options : Options) : M StreamingResult :=
  try_catch
    (do env <- ask;
     if negb (isReady this env) then throw (Error "RAG pipeline not ready")
     else
       do queryEmbedding <- Embeddings.generateQueryEmbedding query;
       do searchResults <-
         VectorDB.searchSimilar (embedding queryEmbedding)
           (JS.or (topK options) (rag_topK this)) (filter options);
       let relevantContext :=
         filterRelevantContext searchResults
           (JS.or (similarityThreshold options) (rag_similarityThreshold this)) in
       if (length relevantContext =? 0)%nat then
         let fallbackText := noContextText in
         let words := JS.splitSpace fallbackText in
         do _ <- streamWords onChunk words (seq 0 (length words));
         do _ <- onChunk {| chunk := EmptyString; fullText := fallbackText;
                            chunkIndex := length words; isComplete := true;
                            chunk_error := false |};
         ret (StreamSuccess query fallbackText [] None None)
       else
         let contextData :=
           prepareContext relevantContext
             (JS.or (maxContextLength options) (rag_maxContextLength this)) in
         do llmResponse <-
           LLM.generateStreamingRAGResponse query contextData options (Some onChunk);
         ret (StreamSuccess query (text llmResponse) contextData
                (resp_chunks llmResponse) (resp_usage llmResponse)))
    (fun error =>
       let errorText := streamErrorText in
       do _ <- onChunk {| chunk := errorText; fullText := errorText;
                          chunkIndex := 0; isComplete := true; chunk_error := true |};
       ret (StreamFailure query (message error))).

(** The argument of [updateConfig]: each field a number or [undefined]. *)
Record NewConfig := mkNewConfig {
  new_topK : option JS.number;
  new_similarityThreshold : option JS.number;
  new_maxContextLength : option JS.number;
}.

(** [updateConfig(newConfig)] *)
Definition updateConfig (this : RAGPipelineService) (newConfig : NewConfig)
    : RAGPipelineService :=
  {| rag_topK :=
       match new_topK newConfig with
       | Some v => JS.Math_max (JS.Fin 1) (JS.Math_min (JS.Fin 20) v)
       | None => rag_topK this
       end;
     rag_similarityThreshold :=
       match new_similarityThreshold newConfig with
       | Some v => JS.Math_max (JS.Fin 0) (JS.Math_min (JS.Fin 1) v)
       | None => rag_similarityThreshold this
       end;
     rag_maxContextLength :=
       match new_maxContextLength newConfig with
       | Some v => JS.Math_max (JS.Fin 1) (JS.Math_min (JS.Fin 10) v)
       | None => rag_maxContextLength this
       end;
     rag_isInitialized := rag_isInitialized this |}.

End RAG.

(** ** controllers/chatControllers.js : the socket handler *)

(** The payload of [send_message]: [{sessionId, message}]. *)
Record SocketData := mkSocketData {
  socket_sessionId : option string;
  socket_message : option string;
}.

Module Chat.

(** [socket.emit(event, payload)] *)
Definition emit (e : SocketEvent) : M unit := modify (addEmitted e).

Definition knowledgeBaseUnavailable : string :=
  "I apologize, but my knowledge base is not currently available. Please try again in a moment, or contact support if the issue persists.".

(** The RAG options of the handler:
    [{topK: 3, similarityThreshold: 0.1, maxContextLength: 3, temperature: 0.7}] *)
Definition ragOptions : Options :=
  {| topK := Some (JS.Fin 3); similarityThreshold := Some (JS.double (1 # 10));
     maxContextLength := Some (JS.Fin 3); filter := None;
     temperature := Some (JS.double (7 # 10)); topP := None; maxTokens := None;
     systemMessage := None |}.

(** The [onChunk] callback of the handler. *)
Definition relayChunk (sessionId : option string) (chunkData : ChunkData) : M unit :=
  do now <- Date_now;
  emit (message_chunk sessionId (chunk chunkData) (fullText chunkData)
          (chunkIndex chunkData) (isComplete chunkData) now).

(** [handleSocketMessage(socket, io, data)]; [data] is [None] when it
    cannot be destructured ([null] or [undefined]). *)
Definition handleSocketMessage (ragPipelineService : RAGPipelineService)
    (data : option SocketData) : M unit :=
  try_catch
    (match data with
     | None => throw (Error "Cannot destructure property 'sessionId' of 'data'")
     | Some data =>
       let sessionId := socket_sessionId data in
       let message := socket_message data in
       do session <- Redis.getSession sessionId;
       do session <-
         match session with
         | Some s => ret (Some s)
         | None =>
             do newSessionId <- Redis.createSession sessionId;
             Redis.getSession newSessionId
         end;
       do now <- Date_now;
       do _ <- Redis.addMessage sessionId
                 {| msg_role := "user"; msg_content := message; msg_timestamp := now |};
       do _ <- emit (typing true);
       do env <- ask;
       if negb (RAG.isReady ragPipelineService env) then
         let fallbackResponse := knowledgeBaseUnavailable in
         do _ <- emit (typing false);
         do now <- Date_now;
         do _ <- emit (message_complete sessionId fallbackResponse now);
         do now <- Date_now;
         do _ <- Redis.addMessage sessionId
                   {| msg_role := "assistant"; msg_content := Some fallbackResponse;
                      msg_timestamp := now |};
         ret tt
       else
         do _ <- RAG.processStreamingQuery ragPipelineService message
                   (relayChunk sessionId) ragOptions;
         do _ <- emit (typing false);
         ret tt
     end)
    (fun error =>
       do _ <- emit (typing false);
       do now <- Date_now;
       emit (error_event "Failed to process message" (message error) now)).

End Chat.

(** * Vocabulary of the properties *)

(** ** Sample deployments, worlds and inputs *)

(** A deployment with both API keys set, the in-memory vector collection
    empty, and providers that answer every request. *)
Definition exampleEnv : Env :=
  {| SESSION_TTL := None; MAX_SESSION_MESSAGES := None; MAX_CONTEXT_CHUNKS := None;
     VECTOR_SEARCH_TOP_K := None;
     clock := fun n => Z.of_nat n;
     uuidv4 := fun n => pretty n;
     embeddingsService :=
       {| emb_apiKey := Some "jina-key";
          emb_baseUrl := "https://api.jina.ai/v1/embeddings";
          emb_modelName := "jina-embeddings-v2-base-en"; emb_maxTokens := 8192;
          emb_isAvailable := true |};
     llmService :=
       {| llm_apiKey := Some "gemini-key"; llm_model := "gemini-1.5-flash";
          llm_maxTokens := JS.Fin 8192; llm_temperature := JS.double (7 # 10);
          llm_topP := JS.double (9 # 10); llm_isAvailable := true |};
     vectorDbService := {| vec_client := VectorMap []; vec_isInitialized := true |};
     axios_post := fun _ _ =>
       inr (Some {| body_data := Some [Some (Some [JS.Fin 1; JS.Fin 0])];
                    body_model := None; body_usage := None |});
     chroma_query := fun _ _ _ _ => None;
     generateContent := fun _ _ _ => inr "Sorry, I do not know.";
     generateContentStream := fun _ _ _ =>
       inr {| fragments := ["Hello"; " world"]; breaks := None |} |}.

(** [env] with [MAX_SESSION_MESSAGES] set to [n]. *)
Definition withMaxMessages (n : Z) (env : Env) : Env :=
  {| SESSION_TTL := SESSION_TTL env; MAX_SESSION_MESSAGES := Some n;
     MAX_CONTEXT_CHUNKS := MAX_CONTEXT_CHUNKS env;
     VECTOR_SEARCH_TOP_K := VECTOR_SEARCH_TOP_K env;
     clock := clock env; uuidv4 := uuidv4 env;
     embeddingsService := embeddingsService env; llmService := llmService env;
     vectorDbService := vectorDbService env; axios_post := axios_post env;
     chroma_query := chroma_query env; generateContent := generateContent env;
     generateContentStream := generateContentStream env |}.

(** [env] with the in-memory vector collection holding [docs]. *)
Definition withDocuments (docs : list Document) (env : Env) : Env :=
  {| SESSION_TTL := SESSION_TTL env; MAX_SESSION_MESSAGES := MAX_SESSION_MESSAGES env;
     MAX_CONTEXT_CHUNKS := MAX_CONTEXT_CHUNKS env;
     VECTOR_SEARCH_TOP_K := VECTOR_SEARCH_TOP_K env;
     clock := clock env; uuidv4 := uuidv4 env;
     embeddingsService := embeddingsService env; llmService := llmService env;
     vectorDbService := {| vec_client := VectorMap docs; vec_isInitialized := true |};
     axios_post := axios_post env;
     chroma_query := chroma_query env; generateContent := generateContent env;
     generateContentStream := generateContentStream env |}.

(** A deployment whose embedding provider answers 429 and whose generation
    provider is rate limited as well. *)
Definition rateLimitedEnv : Env :=
  {| SESSION_TTL := None; MAX_SESSION_MESSAGES := None; MAX_CONTEXT_CHUNKS := None;
     VECTOR_SEARCH_TOP_K := None;
     clock := clock exampleEnv; uuidv4 := uuidv4 exampleEnv;
     embeddingsService := embeddingsService exampleEnv;
     llmService := llmService exampleEnv;
     vectorDbService := vectorDbService exampleEnv;
     axios_post := fun _ _ =>
       inl {| message := "Request failed with status code 429";
              response := Some {| status := 429; data_error_message := None;
                                  data_message := Some "Too many requests" |};
              code := None |};
     chroma_query := chroma_query exampleEnv;
     generateContent := fun _ _ _ => inl (Error "RATE_LIMIT_EXCEEDED");
     generateContentStream := generateContentStream exampleEnv |}.

(** Five chunks as the index ranks them, with the distances it reports. *)
Definition indexedChunks : list (string * JS.number) :=
  [("a", JS.double (2 # 10)); ("b", JS.double (95 # 100)); ("c", JS.double (3 # 10));
   ("d", JS.double (4 # 10)); ("e", JS.double (1 # 10))].

(** A deployment on the vector index: a query for [n] results is answered
    with the first [n] of [indexedChunks]. *)
Definition indexEnv : Env :=
  {| SESSION_TTL := None; MAX_SESSION_MESSAGES := None; MAX_CONTEXT_CHUNKS := None;
     VECTOR_SEARCH_TOP_K := None;
     clock := clock exampleEnv; uuidv4 := uuidv4 exampleEnv;
     embeddingsService := embeddingsService exampleEnv;
     llmService := llmService exampleEnv;
     vectorDbService := {| vec_client := VectorChroma; vec_isInitialized := true |};
     axios_post := axios_post exampleEnv;
     chroma_query := fun _ _ nResults _ =>
       let hits := JS.slice indexedChunks (JS.Fin 0) nResults in
       Some {| chroma_documents := Some (map (fun hit => Some hit.1) hits);
               chroma_metadatas := Some (map (fun _ => None) hits);
               chroma_distances := Some (map (fun hit => Some hit.2) hits);
               chroma_ids := Some (map fst hits) |};
     generateContent := generateContent exampleEnv;
     generateContentStream := generateContentStream exampleEnv |}.

(** The in-memory store, empty; nothing emitted or requested yet. *)
Definition emptyWorld : World :=
  {| redis := {| client := ClientMap ∅ []; isConnected := true |};
     emitted := []; embeddingRequests := []; llmRequests := []; ticks := 0 |}.

Definition exampleSession : Session :=
  {| s_id := "s1"; s_createdAt := 0; s_lastActivity := 0; s_messages := [] |}.

(** The in-memory store holding one session, [s1]. *)
Definition oneSessionWorld : World :=
  {| redis := {| client := ClientMap {[ "session:s1" := exampleSession ]} [];
                 isConnected := true |};
     emitted := []; embeddingRequests := []; llmRequests := []; ticks := 0 |}.

Definition userMessage (content : string) : Message :=
  {| msg_role := "user"; msg_content := Some content; msg_timestamp := 0 |}.

(** The in-memory store after [createSession("s1")] and one
    [addMessage("s1", {role: "user", content: "hello"})]. *)
Definition chattedWorld : World :=
  ((do _ <- Redis.createSession (Some "s1");
    Redis.addMessage (Some "s1") (userMessage "hello")) exampleEnv emptyWorld).2.

Definition newsDocument : Document :=
  {| doc_id := "doc-1"; doc_content := Some "Rates were cut today.";
     doc_metadata := Some {| title := Some "Rates"; source := Some "wire";
                             url := None; published := None |} |}.

(** The instance the constructor builds when no environment variable is set. *)
Definition defaultPipeline : RAGPipelineService :=
  {| rag_topK := JS.Fin 3; rag_similarityThreshold := JS.double (1 # 10);
     rag_maxContextLength := JS.Fin 5; rag_isInitialized := false |}.

(** An initialized instance configured with [topK] 4,
    [similarityThreshold] 0.1 and [maxContextLength] 2. *)
Definition configuredPipeline : RAGPipelineService :=
  {| rag_topK := JS.Fin 4; rag_similarityThreshold := JS.double (1 # 10);
     rag_maxContextLength := JS.Fin 2; rag_isInitialized := true |}.

(** The default instance after a successful [initialize]. *)
Definition readyPipeline : RAGPipelineService :=
  {| rag_topK := JS.Fin 3; rag_similarityThreshold := JS.double (1 # 10);
     rag_maxContextLength := JS.Fin 5; rag_isInitialized := true |}.

Definition question : SocketData :=
  {| socket_sessionId := Some "s1";
     socket_message := Some "What happened to rates?" |}.

(** [c.repeat(n)] *)
Fixpoint repeatChar (c : ascii) (n : nat) : string :=
  match n with
  | O => EmptyString
  | S n' => String c (repeatChar c n')
  end.

(** A text of 32769 characters, one more than [8192 * 4]. *)
Definition longText : string := repeatChar "a"%char (Z.to_nat 32769).

(** One stored chunk at distance 0.05 (similarity 0.95). *)
Definition closeChunk : SearchResults :=
  {| documents := [Some "Rates were cut today."];
     metadatas := [None];
     distances := [Some (JS.double (5 # 100))];
     ids := ["doc-1"] |}.

(** One stored chunk at distance 1e-20, one at distance 0.9, and two at
    distances 2e-20 and 1e-20. *)
Definition tinyDistanceResults : SearchResults :=
  {| documents := [Some "x"]; metadatas := [];
     distances := [Some (JS.double (1 # 100000000000000000000))];
     ids := ["x"] |}.

Definition farChunk : SearchResults :=
  {| documents := [Some "x"]; metadatas := [];
     distances := [Some (JS.double (9 # 10))];
     ids := ["x"] |}.

Definition twoTinyDistances : SearchResults :=
  {| documents := [Some "x"; Some "y"]; metadatas := [];
     distances := [Some (JS.double (2 # 100000000000000000000));
                   Some (JS.double (1 # 100000000000000000000))];
     ids := ["x"; "y"] |}.

(** Two stored chunks, the second reported with a negative distance. *)
Definition negativeDistanceResults : SearchResults :=
  {| documents := [Some "a"; Some "b"];
     metadatas := [];
     distances := [Some (JS.Fin 0); Some (JS.Fin (-1))];
     ids := ["x"; "y"] |}.

(** Two stored chunks: the first at distance 0.5, the second reported
    without a distance. *)
Definition missingDistanceResults : SearchResults :=
  {| documents := [Some "a"; Some "b"];
     metadatas := [];
     distances := [Some (JS.Fin (1 # 2))];
     ids := ["x"; "y"] |}.

(** [updateConfig({topK: 50, maxContextLength: 0})] *)
Definition outOfRangeConfig : RAG.NewConfig :=
  {| RAG.new_topK := Some (JS.Fin 50); RAG.new_similarityThreshold := None;
     RAG.new_maxContextLength := Some (JS.Fin 0) |}.

(** [updateConfig({topK: NaN})] *)
Definition nanConfig : RAG.NewConfig :=
  {| RAG.new_topK := Some JS.NaN; RAG.new_similarityThreshold := None;
     RAG.new_maxContextLength := None |}.

(** ** Relevance filtering *)

Definition notNaN (n : JS.number) : Prop := n <> JS.NaN.

(** A multiple of [2^-1074], the spacing of the smallest doubles; every
    finite double is one. *)
Definition onGrid (q : Q) : Prop :=
  exists k : Z, (q == inject_Z k * 2 ^ (-1074))%Q.

(** A number as the arithmetic of the program produces it. *)
Definition isDouble (n : JS.number) : Prop :=
  match n with
  | JS.Fin q => onGrid q
  | _ => True
  end.

(** [a] may stand in front of [b] in a list sorted by descending similarity. *)
Definition descending (a b : Candidate) : Prop :=
  JS.ge (similarity a) (similarity b) = true.

(** A reported distance that is missing, [undefined], or exactly [0]. *)
Definition missingOrZero (d : option JS.number) : Prop :=
  d = None \/ exists q, d = Some (JS.Fin q) /\ (q == 0)%Q.

(** Two candidates of equal similarity. *)
Definition tied (a b : Candidate) : Prop :=
  JS.ge (similarity a) (similarity b) = true /\
  JS.ge (similarity b) (similarity a) = true.

(** The candidate of index [i] sorts ahead of, or equal to, the candidates
    of the indices in [others]: wherever it stands in the filtered list, a
    candidate of [others] in front of it has the same similarity, and a
    returned candidate of [others] with another similarity stands behind
    it. *)
Definition sortsAhead (searchResults : SearchResults) (t : JS.number) (i : nat)
    (others : nat -> Prop) : Prop :=
  forall l1 l2 j,
    RAG.filterRelevantContext searchResults t
      = l1 ++ RAG.candidateAt searchResults i :: l2 ->
    others j ->
    (RAG.candidateAt searchResults j ∈ l1 ->
     tied (RAG.candidateAt searchResults j) (RAG.candidateAt searchResults i)) /\
    (j < length (documents searchResults) ->
     JS.ge (similarity (RAG.candidateAt searchResults j)) t = true ->
     ~ tied (RAG.candidateAt searchResults j) (RAG.candidateAt searchResults i) ->
     RAG.candidateAt searchResults j ∈ l2).

(** ** Configuration *)

(** [lo <= n <= hi] *)
Definition within (lo hi : Q) (n : JS.number) : Prop :=
  JS.ge n (JS.Fin lo) = true /\ JS.le n (JS.Fin hi) = true.

(** The configuration invariant: [topK] in [[1, 20]], [similarityThreshold]
    in [[0, 1]], [maxContextLength] in [[1, 10]]. *)
Definition configInvariant (this : RAGPipelineService) : Prop :=
  within 1 20 (rag_topK this) /\
  within 0 1 (rag_similarityThreshold this) /\
  within 1 10 (rag_maxContextLength this).

(** Every field that is given is a number other than [NaN]. *)
Definition numericConfig (newConfig : RAG.NewConfig) : Prop :=
  (forall v, RAG.new_topK newConfig = Some v -> notNaN v) /\
  (forall v, RAG.new_similarityThreshold newConfig = Some v -> notNaN v) /\
  (forall v, RAG.new_maxContextLength newConfig = Some v -> notNaN v).

(** [{...options, topK: v}] and its like. *)
Definition withTopK (v : option JS.number) (o : Options) : Options :=
  {| topK := v; similarityThreshold := similarityThreshold o;
     maxContextLength := maxContextLength o; filter := filter o;
     temperature := temperature o; topP := topP o; maxTokens := maxTokens o;
     systemMessage := systemMessage o |}.

Definition withSimilarityThreshold (v : option JS.number) (o : Options) : Options :=
  {| topK := topK o; similarityThreshold := v;
     maxContextLength := maxContextLength o; filter := filter o;
     temperature := temperature o; topP := topP o; maxTokens := maxTokens o;
     systemMessage := systemMessage o |}.

Definition withMaxContextLength (v : option JS.number) (o : Options) : Options :=
  {| topK := topK o; similarityThreshold := similarityThreshold o;
     maxContextLength := v; filter := filter o;
     temperature := temperature o; topP := topP o; maxTokens := maxTokens o;
     systemMessage := systemMessage o |}.



(** ** Session store *)

(** The session held under [key], whichever backend is in use. *)
Definition stored (w : World) (key : string) : option Session :=
  match client (redis w) with
  | ClientMap entries _ => entries !! key
  | ClientRedis db => fst <$> db !! key
  | ClientNull => None
  end.

(** The key was last written with a TTL of [ttl] seconds: SETEX with [ttl]
    on the server, or a deletion scheduled [ttl * 1000] ms ahead as the
    latest timer of the in-memory substitute. *)
Definition ttlRefreshed (w : World) (key : string) (ttl : Z) : Prop :=
  match client (redis w) with
  | ClientMap _ timers => last timers = Some (key, (ttl * 1000)%Z)
  | ClientRedis db => snd <$> db !! key = Some (Some ttl)
  | ClientNull => False
  end.

(** [{...message, timestamp: now}] *)
Definition restamp (now : Z) (m : Message) : Message :=
  {| msg_role := msg_role m; msg_content := msg_content m; msg_timestamp := now |}.

(** The messages as [addMessage] stores them when the calls start at
    interaction [n]: each call reads the clock three times, the second
    reading stamps the message. *)
Fixpoint stampedFrom (env : Env) (n : nat) (ms : list Message) : list Message :=
  match ms with
  | [] => []
  | m :: ms' => restamp (clock env (S n)) m :: stampedFrom env (n + 3) ms'
  end.

(** The last [n] elements, in order. *)
Definition lastN {A} (n : nat) (l : list A) : list A := drop (length l - n) l.

(** A sequence of [addMessage] calls on one session. *)
Fixpoint addMessages (sid : option string) (ms : list Message) : M (list bool) :=
  match ms with
  | [] => ret []
  | m :: ms' =>
      do b <- Redis.addMessage sid m;
      do bs <- addMessages sid ms';
      ret (b :: bs)
  end.

(** [n] calls of [getSession] in a row. *)
Fixpoint getSessionTimes (n : nat) (sid : option string) : M (list (option Session)) :=
  match n with
  | O => ret []
  | S n' =>
      do r <- Redis.getSession sid;
      do rs <- getSessionTimes n' sid;
      ret (r :: rs)
  end.

(** The session [s] as a read at time [now] returns it: only
    [lastActivity] differs, and is [now]. *)
Definition activeAt (now : Z) (s : Session) : Session :=
  {| s_id := s_id s; s_createdAt := s_createdAt s; s_lastActivity := now;
     s_messages := s_messages s |}.

(** What [n] reads in a row return when the first is made at interaction
    [t]: read [k] carries the clock of interaction [t + k]. *)
Definition readsFrom (env : Env) (t n : nat) (s : Session) : list (option Session) :=
  map (fun k => Some (activeAt (clock env (t + k)) s)) (seq 0 n).

(** The session stored after those reads. *)
Definition afterReads (env : Env) (t n : nat) (s : Session) : Session :=
  match n with
  | O => s
  | S k => activeAt (clock env (t + k)) s
  end.

(** The deletions scheduled on the in-memory store and not yet run, oldest
    first. *)
Definition pendingTimers (w : World) : list (string * Z) :=
  match client (redis w) with
  | ClientMap _ timers => timers
  | _ => []
  end.

(** The TTL the server holds for [key]. *)
Definition serverTtl (w : World) (key : string) : option Z :=
  match client (redis w) with
  | ClientRedis db => db !! key ≫= snd
  | _ => None
  end.

(** The next expiry on the in-memory store.  Timers expire in the order of
    their deadlines: the oldest pending timer is the first to expire when no
    timer registered after it has a shorter delay, and its callback then
    deletes its key. *)
Definition expireNext (w : World) : World :=
  match client (redis w) with
  | ClientMap entries ((key, delay) :: timers) =>
      if forallb (fun timer => (delay <=? timer.2)%Z) timers
      then setRedis {| client := Redis.deleteOnTimeout key (ClientMap entries timers);
                       isConnected := isConnected (redis w) |} w
      else w
  | _ => w
  end.

(** ** Effects of a computation *)

(** Nothing was emitted and no provider was called between [w] and [w']. *)
Definition sameTraffic (w w' : World) : Prop :=
  emitted w' = emitted w /\
  embeddingRequests w' = embeddingRequests w /\
  llmRequests w' = llmRequests w.

(** Nothing was emitted on the socket between [w] and [w']. *)
Definition sameEvents (w w' : World) : Prop := emitted w' = emitted w.

(** The computation [c] keeps [R] between the worlds before and after it,
    whether it returns or throws. *)
Definition keeps (R : World -> World -> Prop) {A} (c : M A) : Prop :=
  forall env w, R w (c env w).2.

(** The computation [c] never throws, and keeps [R]. *)
Definition returns (R : World -> World -> Prop) {A} (c : M A) : Prop :=
  forall env w, exists a w', c env w = (Ok a, w') /\ R w w'.

(** ** Streaming channel *)

(** A completion signal ([message_complete], or a chunk with [isComplete]
    true) or an [error] event. *)
Definition isTerminal (e : SocketEvent) : bool :=
  match e with
  | typing _ => false
  | message_chunk _ _ _ _ isComplete _ => isComplete
  | message_complete _ _ _ => true
  | error_event _ _ _ => true
  end.

Definition terminalCount (es : list SocketEvent) : nat :=
  length (List.filter isTerminal es).

(** The [index] of a [message_chunk] event. *)
Definition eventIndex (e : SocketEvent) : option nat :=
  match e with
  | message_chunk _ _ _ index _ _ => Some index
  | _ => None
  end.

Definition chunkIndices (es : list SocketEvent) : list nat := omap eventIndex es.

(** A [message_chunk] that carries text: [isComplete] is false. *)
Definition isTextChunk (e : SocketEvent) : bool :=
  match e with
  | message_chunk _ _ _ _ false _ => true
  | _ => false
  end.

(** A [message_chunk] with [isComplete] true. *)
Definition isFinalChunk (e : SocketEvent) : bool :=
  match e with
  | message_chunk _ _ _ _ true _ => true
  | _ => false
  end.

(** Text chunks only, with strictly increasing indices. *)
Definition textChunks (es : list SocketEvent) : Prop :=
  Forall (fun e => isTextChunk e = true) es /\ StronglySorted lt (chunkIndices es).

(** The events of one query: no terminal event among [before], whose chunks
    have strictly increasing indices; then the terminal event; then events
    that are neither terminal nor chunks. *)
Definition orderedStream (es : list SocketEvent) : Prop :=
  exists before term after,
    es = before ++ term :: after /\
    isTerminal term = true /\
    Forall (fun e => isTerminal e = false) before /\
    StronglySorted lt (chunkIndices before) /\
    Forall (fun e => isTerminal e = false /\ eventIndex e = None) after.

(** What a relayed generation emits: when it returns, text chunks and then
    the final chunk; when it throws, text chunks only. *)
Definition streamOutcome {A} (r : Res A) (es : list SocketEvent) : Prop :=
  match r with
  | Ok _ => exists texts final,
      es = texts ++ [final] /\ textChunks texts /\ isFinalChunk final = true
  | Throw _ => textChunks es
  end.

(** C1 as stated: every [message_chunk] index strictly above the one before
    it, and exactly one terminal event. *)
Definition streamClaim (es : list SocketEvent) : Prop :=
  StronglySorted lt (chunkIndices es) /\ terminalCount es = 1.

(** ** Fallback generation *)

(** The request of one fallback generation: made when the generation client
    is available, none otherwise. *)
Definition fallbackAttempt (env : Env) (query : option string) : list LlmRequest :=
  if LLM.isServiceAvailable (llmService env)
  then [GenerateContent (RAG.fallbackPrompt query)
          (LLM.generationConfig (llmService env) RAG.fallbackOptions)]
  else [].

(** The answer of one fallback generation made at interaction [n]: the
    provider's text, trimmed; the fixed apology when the client is
    unavailable, the provider throws, or its text is blank. *)
Definition fallbackText (env : Env) (n : nat) (query : option string) : string :=
  if LLM.isServiceAvailable (llmService env) then
    match generateContent env n (RAG.fallbackPrompt query)
            (LLM.generationConfig (llmService env) RAG.fallbackOptions) with
    | inr raw => if (String.length (JS.trim raw) =? 0)%nat then RAG.apology
                 else JS.trim raw
    | inl _ => RAG.apology
    end
  else RAG.apology.

(** ** Session store: further vocabulary *)

(** The store does not answer: it is not connected, or has no client. *)
Definition unavailable (w : World) : Prop := Redis.isAvailable (redis w) = false.

(** The session built by [createSession]. *)
Definition freshSession (id : string) (created active : Z) : Session :=
  {| s_id := id; s_createdAt := created; s_lastActivity := active; s_messages := [] |}.

(** A store that was never connected. *)
Definition offlineWorld : World :=
  {| redis := {| client := ClientNull; isConnected := false |};
     emitted := []; embeddingRequests := []; llmRequests := []; ticks := 0 |}.

(** The session store is as it was. *)
Definition sameStore (w w' : World) : Prop := redis w' = redis w.

(** * Properties *)

(** ** Runs on small inputs *)

Example trim_example : JS.trim ("  a b " +:+ nl) = "a b".
Proof. reflexivity. Qed.

Example splitSpace_example : JS.splitSpace "I don't have" = ["I"; "don't"; "have"].
Proof. reflexivity. Qed.

Example slice_example :
  JS.slice [1; 2; 3; 4] (JS.Fin 0) (JS.Fin (5 # 2)) = [1; 2] /\
  JS.slice [1; 2; 3; 4] (JS.Fin 0) (JS.Fin (-1)) = [1; 2; 3] /\
  JS.sliceFrom [1; 2; 3; 4] (JS.ofZ (-3)) = [2; 3; 4].
Proof. repeat split. Qed.

Example sort_example :
  JS.sort (fun a b => JS.sub b a) [JS.Fin (1 # 2); JS.Fin 2; JS.Inf true; JS.Fin 1]
  = [JS.Fin 2; JS.Fin 1; JS.Fin (1 # 2); JS.Inf true].
Proof. reflexivity. Qed.

(** One stored chunk with similarity 0.95 and threshold 0.1: the chunk is
    kept, and the generation prompt contains its content. *)
Example filter_close_chunk :
  RAG.filterRelevantContext closeChunk (JS.double (1 # 10))
  = [RAG.candidateAt closeChunk 0] /\
  similarity (RAG.candidateAt closeChunk 0) = JS.double (95 # 100) /\
  JS.includes
    (LLM.buildRAGPrompt (Some "What happened?")
       (RAG.prepareContext (RAG.filterRelevantContext closeChunk (JS.double (1 # 10)))
          (JS.Fin 5)) noOptions)
    "Rates were cut today." = true.
Proof. vm_compute. repeat split. Qed.

(** The similarity is a double.  At distance 1e-20 it is exactly 1 and
    passes the threshold 1; at distances 2e-20 and 1e-20 both similarities
    are 1 and the stable sort keeps the order of the search; at distance
    0.9 it is 0.09999999999999998, below the threshold 0.1. *)
Example filter_rounds :
  RAG.filterRelevantContext tinyDistanceResults (JS.Fin 1)
  = [RAG.candidateAt tinyDistanceResults 0] /\
  similarity (RAG.candidateAt tinyDistanceResults 0) = JS.Fin 1 /\
  RAG.filterRelevantContext twoTinyDistances (JS.Fin 1)
  = [RAG.candidateAt twoTinyDistances 0; RAG.candidateAt twoTinyDistances 1] /\
  RAG.filterRelevantContext farChunk (JS.double (1 # 10)) = [] /\
  similarity (RAG.candidateAt farChunk 0)
  = JS.Fin (900719925474099 # 9007199254740992).
Proof. vm_compute. repeat split. Qed.

(** ** Running the monad *)

Ltac unfoldM :=
  unfold throw, ret, bind, try_catch, ask, tick, modify, getWorld in *.

Lemma bind_run {A B} (c : M A) (k : A -> M B) env w :
  bind c k env w
  = match c env w with
    | (Ok a, w') => k a env w'
    | (Throw e, w') => (Throw e, w')
    end.
Proof. reflexivity. Qed.

Lemma try_run {A} (c : M A) (h : JsError -> M A) env w :
  try_catch c h env w
  = match c env w with
    | (Ok a, w') => (Ok a, w')
    | (Throw e, w') => h e env w'
    end.
Proof. reflexivity. Qed.

Lemma Date_now_run env w : Date_now env w = (Ok (clock env (ticks w)), nextTick w).
Proof. reflexivity. Qed.

Lemma ask_run env w : ask env w = (Ok env, w).
Proof. reflexivity. Qed.

Lemma ret_run {A} (a : A) env w : ret a env w = (Ok a, w).
Proof. reflexivity. Qed.

Lemma tick_run env w : tick env w = (Ok (ticks w), nextTick w).
Proof. reflexivity. Qed.

Lemma modify_run f env w : modify f env w = (Ok tt, f w).
Proof. reflexivity. Qed.

Lemma throw_run {A} e env w : throw (A:=A) e env w = (Throw e, w).
Proof. reflexivity. Qed.

(** Run the monad one step at a time. *)
Ltac runM :=
  repeat (progress (rewrite ?try_run, ?bind_run, ?Date_now_run, ?ask_run, ?ret_run,
                      ?tick_run, ?modify_run, ?throw_run;
                    cbn beta iota)).

(** ** Numbers: order facts used by the comparator and the threshold test *)

Section Numbers.

Import JS.

Lemma or_notNaN a : notNaN (or a (Fin 0)).
Proof.
  destruct a as [[| s | q] |]; cbn; try discriminate.
  destruct (Qeq_bool q 0); discriminate.
Qed.

Lemma Qle_bool_false x y : Qle_bool x y = false -> (y < x)%Q.
Proof.
  intros H. apply Qnot_le_lt. intros Hle.
  apply Qle_bool_iff in Hle. congruence.
Qed.

(** *** Rounding to binary64 *)

Example round_examples :
  double (1 # 10) = Fin (3602879701896397 # 36028797018963968) /\
  round (1 - (1 # 100000000000000000000)) = Fin 1 /\
  sub (Fin 1) (double (9 # 10)) = Fin (900719925474099 # 9007199254740992) /\
  ge (sub (Fin 1) (double (9 # 10))) (double (1 # 10)) = false /\
  round (inject_Z (2 ^ 53 + 1)) = Fin (inject_Z (2 ^ 53)) /\
  round (inject_Z (2 ^ 53 + 3)) = Fin (inject_Z (2 ^ 53 + 4)) /\
  round (2 ^ 1024 - 2 ^ 970) = Inf false /\
  round (2 ^ (-1075)) = Fin 0 /\
  round (- (1 # 3)) = Fin (-6004799503160661 # 18014398509481984).
Proof. vm_compute. repeat split. Qed.

Section Rounding.

Local Open Scope Q_scope.

Lemma pow2_pos (e : Z) : 0 < 2 ^ e.
Proof. by apply Qpower_0_lt. Qed.

Lemma pow2_plus (a b : Z) : 2 ^ (a + b) == 2 ^ a * 2 ^ b.
Proof. by apply Qpower_plus. Qed.

Lemma pow2_le (a b : Z) : (a <= b)%Z -> 2 ^ a <= 2 ^ b.
Proof. intros H. by apply Qpower_le_compat_l. Qed.

Lemma pow2_inject (n : Z) : (0 <= n)%Z -> 2 ^ n == inject_Z (2 ^ n).
Proof. intros H. by rewrite Zpower_Qpower. Qed.

Lemma floorLog2_lower (q : Q) : 0 < q -> 2 ^ floorLog2 q <= q.
Proof.
  intros Hq. unfold floorLog2.
  set (a := Z.log2 (Qnum q)). set (b := Z.log2 (Z.pos (Qden q))).
  destruct (Qle_bool (2 ^ (a - b)) q) eqn:E; [by apply Qle_bool_iff |].
  assert (Hn : (0 < Qnum q)%Z) by (destruct q as [n d]; unfold Qlt in Hq; cbn in *; lia).
  pose proof (Z.log2_spec _ Hn) as [Ha _]. fold a in Ha.
  pose proof (Z.log2_spec (Z.pos (Qden q)) eq_refl) as [_ Hb]. fold b in Hb.
  pose proof (Z.log2_nonneg (Qnum q)) as Ha0. fold a in Ha0.
  pose proof (Z.log2_nonneg (Z.pos (Qden q))) as Hb0. fold b in Hb0.
  assert (Hq' : q == inject_Z (Qnum q) / inject_Z (Z.pos (Qden q))).
  { destruct q as [n d]. cbn. rewrite Qmake_Qdiv. reflexivity. }
  rewrite Hq'.
  apply Qle_shift_div_l; [reflexivity |].
  apply Qle_trans with (2 ^ (a - b - 1) * 2 ^ (b + 1)).
  - apply Qmult_le_l; [apply pow2_pos |].
    rewrite (pow2_inject (b + 1)) by lia. rewrite <- Zle_Qle.
    change (Z.succ b) with (b + 1)%Z in Hb. lia.
  - rewrite <- pow2_plus. replace (a - b - 1 + (b + 1))%Z with a by lia.
    rewrite pow2_inject by lia. by rewrite <- Zle_Qle.
Qed.

Lemma roundHalfEven_floor (q : Q) : (Qfloor q <= roundHalfEven q)%Z.
Proof.
  unfold roundHalfEven. destruct (q - inject_Z (Qfloor q) ?= 1 # 2); [| lia | lia].
  destruct (Z.even (Qfloor q)); lia.
Qed.

Lemma roundHalfEven_le (q : Q) (n : Z) : q <= inject_Z n -> (roundHalfEven q <= n)%Z.
Proof.
  intros H. pose proof (Qfloor_resp_le _ _ H) as Hf. rewrite Qfloor_Z in Hf.
  unfold roundHalfEven.
  destruct (Z.eq_dec (Qfloor q) n) as [E | E].
  - assert (Hlt : q - inject_Z (Qfloor q) < 1 # 2).
    { rewrite E. apply Qle_lt_trans with 0; [lra | reflexivity]. }
    rewrite Qlt_alt in Hlt. rewrite Hlt. lia.
  - destruct (q - inject_Z (Qfloor q) ?= 1 # 2); [| lia | lia].
    destruct (Z.even (Qfloor q)); lia.
Qed.

Lemma roundHalfEven_pos (q : Q) : 1 <= q -> (1 <= roundHalfEven q)%Z.
Proof.
  intros H. pose proof (Qfloor_resp_le 1 q H) as Hf.
  change (Qfloor 1) with 1%Z in Hf.
  pose proof (roundHalfEven_floor q). lia.
Qed.

(** What [roundPos] computes, with the scaled value and the exponent named. *)
Lemma roundPos_cases (q : Q) :
  exists (m e : Z),
    (-1074 <= e)%Z /\ (floorLog2 q - 52 <= e)%Z /\
    (e = -1074 \/ e = floorLog2 q - 52)%Z /\
    m = roundHalfEven (q / 2 ^ e) /\
    (roundPos q = Inf false \/
     exists v, roundPos q = Fin v /\ v == inject_Z m * 2 ^ e).
Proof.
  unfold roundPos. set (e := Z.max (floorLog2 q - 52) (-1074)).
  exists (roundHalfEven (q / 2 ^ e)), e.
  split; [lia |]. split; [lia |]. split; [lia |]. split; [done |].
  destruct (Qle_bool _ _); [by left | right].
  eexists. split; [reflexivity | apply Qred_correct].
Qed.

Lemma roundPos_notNaN q : roundPos q <> NaN.
Proof. unfold roundPos. by destruct (Qle_bool _ _). Qed.

Lemma round_notNaN q : round q <> NaN.
Proof.
  unfold round. destruct (q ?= 0); [done | |apply roundPos_notNaN].
  pose proof (roundPos_notNaN (- q)). by destruct (roundPos (- q)).
Qed.

Lemma onGrid_pow2 (m e : Z) : (-1074 <= e)%Z -> onGrid (inject_Z m * 2 ^ e).
Proof.
  intros He. exists (m * 2 ^ (e + 1074))%Z.
  rewrite inject_Z_mult, <- (pow2_inject (e + 1074)) by lia.
  rewrite <- Qmult_assoc, <- pow2_plus.
  by replace (e + 1074 + -1074)%Z with e by lia.
Qed.

Lemma onGrid_proper q q' : q == q' -> onGrid q -> onGrid q'.
Proof. intros E [k Hk]. exists k. by rewrite <- E. Qed.

Lemma onGrid_opp q : onGrid q -> onGrid (- q).
Proof.
  intros [k Hk]. exists (- k)%Z. rewrite Hk, inject_Z_opp. ring.
Qed.

Lemma roundPos_isDouble q : isDouble (roundPos q).
Proof.
  destruct (roundPos_cases q) as (m & e & He & _ & _ & _ & [E | (v & E & Hv)]);
    rewrite E; [done |].
  cbn. eapply onGrid_proper; [symmetry; exact Hv |]. by apply onGrid_pow2.
Qed.

Lemma round_isDouble q : isDouble (round q).
Proof.
  unfold round. destruct (q ?= 0).
  - exists 0%Z. reflexivity.
  - pose proof (roundPos_isDouble (- q)) as H.
    destruct (roundPos (- q)) as [| s | v]; cbn in *; try done.
    eapply onGrid_proper; [symmetry; apply Qred_correct |]. by apply onGrid_opp.
  - apply roundPos_isDouble.
Qed.

Lemma roundPos_nonneg q : 0 < q -> forall v, roundPos q = Fin v -> 0 <= v.
Proof.
  intros Hq v E.
  destruct (roundPos_cases q) as (m & e & _ & _ & _ & Hm & [E' | (v' & E' & Hv)]);
    rewrite E' in E; [done |].
  injection E as <-. rewrite Hv.
  assert (H0 : 0 <= q / 2 ^ e) by (apply Qle_shift_div_l; [apply pow2_pos | lra]).
  pose proof (Qfloor_resp_le 0 _ H0) as Hf. change (Qfloor 0) with 0%Z in Hf.
  pose proof (roundHalfEven_floor (q / 2 ^ e)) as Hr. rewrite <- Hm in Hr.
  apply Qmult_le_0_compat; [| apply Qlt_le_weak, pow2_pos].
  assert (Hm0 : (0 <= m)%Z) by lia. by rewrite Zle_Qle in Hm0.
Qed.

(** The value of [roundPos] is positive once the argument reaches the
    smallest double: no underflow to zero. *)
Lemma roundPos_positive q :
  2 ^ (-1074) <= q ->
  roundPos q = Inf false \/ exists v, roundPos q = Fin v /\ 0 < v.
Proof.
  intros Hq.
  assert (Hq0 : 0 < q) by (eapply Qlt_le_trans; [apply (pow2_pos (-1074)) | done]).
  destruct (roundPos_cases q) as (m & e & He & Hfl & Hcase & Hm & [E | (v & E & Hv)]);
    [by left | right].
  exists v. split; [done |]. rewrite Hv.
  assert (Hqe : 2 ^ e <= q).
  { destruct Hcase as [-> | ->]; [done |].
    eapply Qle_trans; [| apply (floorLog2_lower q Hq0)]. apply pow2_le. lia. }
  assert (1 <= q / 2 ^ e) by (apply Qle_shift_div_l; [apply pow2_pos | lra]).
  pose proof (roundHalfEven_pos _ H) as Hm1. rewrite <- Hm in Hm1.
  apply Qmult_lt_0_compat; [| apply pow2_pos].
  rewrite Zle_Qle in Hm1. change (inject_Z 1) with 1 in Hm1. lra.
Qed.

(** The value of [roundPos] stays at or below 1 when the argument does. *)
Lemma roundPos_le_1 q :
  0 < q -> q <= 1 -> exists v, roundPos q = Fin v /\ 0 <= v /\ v <= 1.
Proof.
  intros Hq0 Hq1.
  pose proof (floorLog2_lower q Hq0) as Hfl.
  assert (Hfl0 : (floorLog2 q <= 0)%Z).
  { apply (Qpower_le_compat_l_inv 2); [| reflexivity].
    eapply Qle_trans; [exact Hfl |]. exact Hq1. }
  unfold roundPos. set (e := Z.max (floorLog2 q - 52) (-1074)).
  assert (He : (e <= 0)%Z) by lia.
  set (m := roundHalfEven (q / 2 ^ e)).
  assert (Hm : (m <= 2 ^ (- e))%Z).
  { apply roundHalfEven_le. rewrite <- pow2_inject by lia.
    apply Qle_shift_div_r; [apply pow2_pos |].
    rewrite <- pow2_plus. replace (- e + e)%Z with 0%Z by lia. exact Hq1. }
  assert (Hm0 : (0 <= m)%Z).
  { pose proof (roundHalfEven_floor (q / 2 ^ e)). fold m in H.
    assert (0 <= q / 2 ^ e).
    { apply Qle_shift_div_l; [apply pow2_pos | lra]. }
    pose proof (Qfloor_resp_le 0 _ H0) as Hf. change (Qfloor 0) with 0%Z in Hf. lia. }
  assert (Hv : 0 <= inject_Z m * 2 ^ e /\ inject_Z m * 2 ^ e <= 1).
  { split.
    - apply Qmult_le_0_compat; [| apply Qlt_le_weak, pow2_pos].
      rewrite Zle_Qle in Hm0. exact Hm0.
    - apply Qle_trans with (inject_Z (2 ^ (- e)) * 2 ^ e).
      + apply Qmult_le_compat_r; [by rewrite <- Zle_Qle | apply Qlt_le_weak, pow2_pos].
      + rewrite <- pow2_inject by lia. rewrite <- pow2_plus.
        replace (- e + e)%Z with 0%Z by lia. apply Qle_refl. }
  destruct (Qle_bool (2 ^ 1024) (inject_Z m * 2 ^ e)) eqn:E.
  - apply Qle_bool_iff in E. exfalso.
    assert (1 < 2 ^ 1024) by (apply (Qpower_1_lt 2); [reflexivity | lia]).
    lra.
  - eexists. split; [reflexivity |]. by rewrite Qred_correct.
Qed.

End Rounding.

Lemma round_nonpos q : (q <= 0)%Q -> gt (round q) (Fin 0) = false.
Proof.
  intros Hq. unfold round. destruct (q ?= 0)%Q eqn:E.
  - reflexivity.
  - apply Qlt_alt in E.
    assert (H0 : (0 < - q)%Q) by lra.
    pose proof (roundPos_nonneg (- q) H0) as Hn.
    destruct (roundPos_cases (- q)) as (m & e & _ & _ & _ & _ & [E' | (v & E' & _)]);
      rewrite E' in *; cbn; [done |].
    apply negb_false_iff, Qle_bool_iff. rewrite Qred_correct.
    specialize (Hn v eq_refl). lra.
  - apply Qgt_alt in E. lra.
Qed.

Lemma round_positive q : (2 ^ (-1074) <= q)%Q -> gt (round q) (Fin 0) = true.
Proof.
  intros Hq.
  assert (Hq0 : (0 < q)%Q) by (eapply Qlt_le_trans; [apply (pow2_pos (-1074)) | done]).
  unfold round. apply Qgt_alt in Hq0. rewrite Hq0.
  destruct (roundPos_positive q Hq) as [-> | (v & -> & Hv)]; [done |].
  cbn. apply negb_true_iff. destruct (Qle_bool v 0) eqn:E; [| done].
  apply Qle_bool_iff in E. lra.
Qed.

Lemma round_le_1 q : (q <= 1)%Q -> ge (Fin 1) (round q) = true.
Proof.
  intros Hq. unfold round. destruct (q ?= 0)%Q eqn:E.
  - reflexivity.
  - apply Qlt_alt in E.
    assert (H0 : (0 < - q)%Q) by lra.
    pose proof (roundPos_nonneg (- q) H0) as Hn.
    destruct (roundPos_cases (- q)) as (m & e & _ & _ & _ & _ & [E' | (v & E' & _)]);
      rewrite E' in *; cbn; [done |].
    apply Qle_bool_iff. rewrite Qred_correct. specialize (Hn v eq_refl). lra.
  - apply Qgt_alt in E.
    destruct (roundPos_le_1 q E Hq) as (v & -> & _ & Hv). cbn. by apply Qle_bool_iff.
Qed.

Lemma grid_gap x y : onGrid x -> onGrid y -> (x < y)%Q -> (2 ^ (-1074) <= y - x)%Q.
Proof.
  intros [k Hk] [k' Hk'] Hlt.
  pose proof (pow2_pos (-1074)) as Hp.
  assert (Hkk : (k < k')%Z).
  { destruct (Z.lt_ge_cases k k') as [| Hge]; [done | exfalso].
    rewrite Zle_Qle in Hge.
    assert ((inject_Z k' * 2 ^ (-1074) <= inject_Z k * 2 ^ (-1074))%Q)
      by (apply Qmult_le_compat_r; [done | lra]).
    lra. }
  assert (Hone : (1 <= inject_Z k' - inject_Z k)%Q).
  { assert (H1 : (k + 1 <= k')%Z) by lia.
    rewrite Zle_Qle, inject_Z_plus in H1.
    change (inject_Z 1) with 1%Q in H1. lra. }
  assert (E : (y - x == (inject_Z k' - inject_Z k) * 2 ^ (-1074))%Q)
    by (rewrite Hk, Hk'; ring).
  rewrite E.
  assert (H1 : (1 * 2 ^ (-1074) <= (inject_Z k' - inject_Z k) * 2 ^ (-1074))%Q)
    by (apply Qmult_le_compat_r; [done | lra]).
  by rewrite Qmult_1_l in H1.
Qed.

Lemma sub_notNaN_one d : notNaN d -> notNaN (sub (Fin 1) d).
Proof. destruct d; cbn; [congruence | discriminate | intros _; apply round_notNaN]. Qed.

Lemma sub_isDouble a b : isDouble (sub a b).
Proof.
  destruct a as [| s | x], b as [| s' | y]; cbn; try done.
  - by destruct (eqb s s').
  - apply round_isDouble.
Qed.

Lemma ge_refl a : notNaN a -> ge a a = true.
Proof.
  destruct a as [| [|] | q]; cbn; intros H; try congruence.
  apply Qle_bool_iff. apply Qle_refl.
Qed.

Lemma ge_trans a b c : ge a b = true -> ge b c = true -> ge a c = true.
Proof.
  destruct a as [| [|] | x], b as [| [|] | y], c as [| [|] | z]; cbn;
    try congruence.
  rewrite !Qle_bool_iff. intros H1 H2. eapply Qle_trans; eauto.
Qed.

(** The comparator's sign agrees with the order of the keys: a rounded
    difference is positive only when the exact one is, and the difference
    of two distinct doubles never rounds to zero. *)
Lemma gt_sub_ge a b : gt (sub b a) (Fin 0) = true -> ge b a = true.
Proof.
  destruct a as [| [|] | x], b as [| [|] | y]; cbn -[round]; try congruence.
  intros H. apply Qle_bool_iff.
  destruct (Qlt_le_dec y x) as [Hlt | Hle]; [| done].
  rewrite round_nonpos in H by lra. discriminate.
Qed.

Lemma not_gt_sub_ge a b :
  notNaN a -> notNaN b -> isDouble a -> isDouble b ->
  gt (sub b a) (Fin 0) = false -> ge a b = true.
Proof.
  unfold notNaN.
  destruct a as [| [|] | x], b as [| [|] | y]; cbn -[round]; try congruence.
  intros _ _ Hx Hy H. apply Qle_bool_iff.
  destruct (Qlt_le_dec x y) as [Hlt | Hle]; [| done].
  rewrite round_positive in H by (by apply grid_gap). discriminate.
Qed.

Lemma ge_not_lt a b : ge a b = true -> lt a b = false.
Proof.
  unfold lt.
  destruct a as [| [|] | x], b as [| [|] | y]; cbn; try congruence.
  intros H. by rewrite H.
Qed.

End Numbers.

(** ** [Array.prototype.sort]: a sorted rearrangement *)

Section Sort.

Context {A : Type} (cmp : A -> A -> JS.number).

Lemma sortInsert_perm x l : JS.sortInsert cmp x l ≡ₚ x :: l.
Proof.
  induction l as [| y l IH]; cbn; [reflexivity |].
  destruct (JS.gt (cmp x y) (JS.Fin 0)); [| reflexivity].
  rewrite IH. apply perm_swap.
Qed.

Lemma sort_cons x l : JS.sort cmp (x :: l) = JS.sortInsert cmp x (JS.sort cmp l).
Proof. reflexivity. Qed.

Lemma sort_perm l : JS.sort cmp l ≡ₚ l.
Proof.
  induction l as [| x l IH]; [reflexivity |].
  rewrite sort_cons, sortInsert_perm. by rewrite IH.
Qed.

Lemma elem_of_sort x l : x ∈ JS.sort cmp l <-> x ∈ l.
Proof. by rewrite sort_perm. Qed.

(** A comparator that orders a key: [before a b] holds when [a] may stand
    in front of [b]. *)
Context (before : A -> A -> Prop) (good : A -> Prop).
Hypothesis before_trans : forall a b c, before a b -> before b c -> before a c.
Hypothesis cmp_gt : forall x y, JS.gt (cmp x y) (JS.Fin 0) = true -> before y x.
Hypothesis cmp_le :
  forall x y, good x -> good y -> JS.gt (cmp x y) (JS.Fin 0) = false -> before x y.

Lemma sortInsert_sorted x l :
  good x -> Forall good l ->
  StronglySorted before l -> StronglySorted before (JS.sortInsert cmp x l).
Proof.
  intros Hx Hl Hs. induction Hs as [| y l Hs IH Hy]; cbn.
  - repeat constructor.
  - inversion Hl as [| ? ? Hgy Hgl]; subst.
    destruct (JS.gt (cmp x y) (JS.Fin 0)) eqn:E.
    + constructor; [by apply IH |].
      rewrite sortInsert_perm. constructor; [by apply cmp_gt | done].
    + pose proof (cmp_le x y Hx Hgy E) as Hxy.
      constructor; [by constructor |].
      constructor; [done |].
      eapply Forall_impl; [exact Hy |]. intros z Hz. by eapply before_trans.
Qed.

Lemma sort_sorted l : Forall good l -> StronglySorted before (JS.sort cmp l).
Proof.
  induction 1 as [| x l Hx Hl IH]; [constructor |].
  rewrite sort_cons.
  apply sortInsert_sorted; [done | by rewrite sort_perm | done].
Qed.

End Sort.

(** ** Relevance filtering *)

Section Filtering.

Variable searchResults : SearchResults.
Variable t : JS.number.

Lemma relevant_fold (l : list nat) (acc : list Candidate) :
  fold_left
    (fun relevant i =>
       let c := RAG.candidateAt searchResults i in
       if JS.ge (similarity c) t then relevant ++ [c] else relevant) l acc
  = acc ++ List.filter (fun c => JS.ge (similarity c) t)
             (map (RAG.candidateAt searchResults) l).
Proof.
  revert acc. induction l as [| i l IH]; intros acc; cbn.
  - by rewrite app_nil_r.
  - rewrite IH. destruct (JS.ge _ t); [by rewrite <- app_assoc | done].
Qed.

Lemma filterRelevantContext_unfold :
  RAG.filterRelevantContext searchResults t
  = JS.sort RAG.bySimilarity
      (List.filter (fun c => JS.ge (similarity c) t)
         (map (RAG.candidateAt searchResults)
            (seq 0 (length (documents searchResults))))).
Proof. unfold RAG.filterRelevantContext. by rewrite relevant_fold. Qed.

(** The list holds exactly the candidates that pass the threshold. *)
Lemma elem_of_filterRelevantContext c :
  c ∈ RAG.filterRelevantContext searchResults t <->
  exists i, i < length (documents searchResults) /\
    c = RAG.candidateAt searchResults i /\ JS.ge (similarity c) t = true.
Proof.
  rewrite filterRelevantContext_unfold, elem_of_sort, list_elem_of_In, filter_In,
    in_map_iff.
  split.
  - intros [(i & <- & Hi) Hge]. apply in_seq in Hi. exists i. split; [lia | done].
  - intros (i & Hi & -> & Hge). split; [| done].
    exists i. split; [done |]. apply in_seq. lia.
Qed.

Lemma similarity_candidateAt i :
  similarity (RAG.candidateAt searchResults i)
  = JS.sub (JS.Fin 1) (RAG.distanceAt searchResults i).
Proof. reflexivity. Qed.

Lemma candidateAt_notNaN i : notNaN (similarity (RAG.candidateAt searchResults i)).
Proof. rewrite similarity_candidateAt. apply sub_notNaN_one, or_notNaN. Qed.

Lemma candidateAt_isDouble i : isDouble (similarity (RAG.candidateAt searchResults i)).
Proof. rewrite similarity_candidateAt. apply sub_isDouble. Qed.

Lemma filterRelevantContext_sorted :
  StronglySorted descending (RAG.filterRelevantContext searchResults t).
Proof.
  rewrite filterRelevantContext_unfold.
  apply (sort_sorted RAG.bySimilarity descending
           (fun c => notNaN (similarity c) /\ isDouble (similarity c))).
  - intros a b c. apply ge_trans.
  - intros x y. apply gt_sub_ge.
  - intros x y [Hx Hx'] [Hy Hy']. by apply not_gt_sub_ge.
  - apply Forall_forall. intros c Hc.
    apply list_elem_of_In, filter_In in Hc as [Hc _]. apply in_map_iff in Hc as (i & <- & _).
    split; [apply candidateAt_notNaN | apply candidateAt_isDouble].
Qed.

End Filtering.

(** C2. For every search result set and every threshold [t],
    [filterRelevantContext] returns only candidates whose derived similarity
    (1 minus the reported distance as a double subtraction, a missing
    distance read as 0) satisfies [similarity >= t] (so never
    [similarity < t]); it returns every candidate that does; and the
    returned list is sorted in descending order of similarity. *)
Theorem filterRelevantContext_threshold_sorted
    (searchResults : SearchResults) (t : JS.number) :
  (forall c, c ∈ RAG.filterRelevantContext searchResults t ->
     exists i, i < length (documents searchResults) /\
       c = RAG.candidateAt searchResults i /\
       similarity c = JS.sub (JS.Fin 1) (RAG.distanceAt searchResults i) /\
       JS.ge (similarity c) t = true /\
       JS.lt (similarity c) t = false) /\
  (forall i, i < length (documents searchResults) ->
     JS.ge (similarity (RAG.candidateAt searchResults i)) t = true ->
     RAG.candidateAt searchResults i ∈ RAG.filterRelevantContext searchResults t) /\
  StronglySorted descending (RAG.filterRelevantContext searchResults t).
Proof.
  split; [| split; [| apply filterRelevantContext_sorted]].
  - intros c Hc. apply elem_of_filterRelevantContext in Hc as (i & Hi & -> & Hge).
    exists i. repeat split; try done. by apply ge_not_lt.
  - intros i Hi Hge. apply elem_of_filterRelevantContext. by exists i.
Qed.

(** [prepareContext] keeps a prefix of the ranked candidates, in order. *)
Lemma prepareContextLoop_prefix items maxLength : forall context,
  exists k,
    RAG.prepareContextLoop items maxLength context
    = context ++ map RAG.contextItemOf (take k items).
Proof.
  induction items as [| item rest IH]; intros context; cbn [RAG.prepareContextLoop].
  - exists 0. cbn. by rewrite app_nil_r.
  - destruct (JS.ge (JS.ofNat (length context)) maxLength).
    + exists 0. cbn. by rewrite app_nil_r.
    + destruct (IH (context ++ [RAG.contextItemOf item])) as (k & ->).
      exists (S k). cbn. by rewrite <- app_assoc.
Qed.

Lemma StronglySorted_take {A} (R : A -> A -> Prop) k l :
  StronglySorted R l -> StronglySorted R (take k l).
Proof.
  intros H. revert k. induction H as [| x l Hs IH Hx]; intros [| k]; cbn;
    try constructor; [apply IH |].
  apply Forall_forall. intros y Hy.
  eapply Forall_forall; [exact Hx |]. eapply subseteq_take, Hy.
Qed.

(** The context handed to generation is ranked: descending by similarity,
    cut after the configured number of chunks. *)
Lemma prepareContext_ranked searchResults t maxLength :
  exists k,
    RAG.prepareContext (RAG.filterRelevantContext searchResults t) maxLength
    = map RAG.contextItemOf (take k (RAG.filterRelevantContext searchResults t)) /\
    StronglySorted descending (take k (RAG.filterRelevantContext searchResults t)).
Proof.
  destruct (prepareContextLoop_prefix (RAG.filterRelevantContext searchResults t)
              maxLength []) as (k & E).
  exists k. split; [exact E |].
  apply StronglySorted_take, filterRelevantContext_sorted.
Qed.

(** ** Candidates without a distance *)

Lemma distanceAt_missingOrZero (searchResults : SearchResults) (i : nat) :
  missingOrZero (mjoin (distances searchResults !! i)) ->
  RAG.distanceAt searchResults i = JS.Fin 0.
Proof.
  unfold RAG.distanceAt. intros [-> | (q & -> & Hq)]; cbn; [done |].
  apply Qeq_bool_iff in Hq. by rewrite Hq.
Qed.

Lemma similarity_nonnegative_distance (d : JS.number) :
  JS.ge d (JS.Fin 0) = true -> JS.ge (JS.Fin 1) (JS.sub (JS.Fin 1) d) = true.
Proof.
  destruct d as [| [|] | q]; cbn -[JS.round]; try congruence.
  rewrite Qle_bool_iff. intros H. apply round_le_1. lra.
Qed.

Lemma StronglySorted_before {A} (R : A -> A -> Prop) l1 x l2 y :
  StronglySorted R (l1 ++ x :: l2) -> y ∈ l1 -> R y x.
Proof.
  induction l1 as [| z l1 IH]; cbn; intros Hs Hy; [by apply elem_of_nil in Hy |].
  apply StronglySorted_inv in Hs as [Hs Hz].
  apply elem_of_cons in Hy as [-> | Hy]; [| by apply IH].
  rewrite Forall_forall in Hz. apply Hz, elem_of_app. right. apply list_elem_of_here.
Qed.

(** C9, as the code has it. In [filterRelevantContext] a candidate whose
    reported distance is missing, [undefined] or exactly 0 is assigned
    distance 0 and derived similarity 1; it passes every threshold [t <= 1],
    so it stands in the returned list; and there it sorts ahead of (or equal
    to) every other candidate whose reported distance is not negative: such
    a candidate stands in front of it only with the same similarity, and
    stands behind it whenever it is returned with another similarity. *)
Theorem zero_distance_candidate
    (searchResults : SearchResults) (t : JS.number) (i : nat) :
  i < length (documents searchResults) ->
  missingOrZero (mjoin (distances searchResults !! i)) ->
  RAG.distanceAt searchResults i = JS.Fin 0 /\
  similarity (RAG.candidateAt searchResults i) = JS.Fin 1 /\
  (JS.le t (JS.Fin 1) = true ->
   exists l1 l2,
     RAG.filterRelevantContext searchResults t
     = l1 ++ RAG.candidateAt searchResults i :: l2) /\
  sortsAhead searchResults t i
    (fun j => JS.ge (RAG.distanceAt searchResults j) (JS.Fin 0) = true).
Proof.
  intros Hi Hd. pose proof (distanceAt_missingOrZero _ _ Hd) as H0.
  assert (Hs : similarity (RAG.candidateAt searchResults i) = JS.Fin 1).
  { rewrite similarity_candidateAt, H0. reflexivity. }
  split; [done |]. split; [done |]. split.
  - intros Ht. apply list_elem_of_split, elem_of_filterRelevantContext. exists i.
    repeat split; try done. by rewrite Hs.
  - intros l1 l2 j E Hj.
    assert (Hle : JS.ge (similarity (RAG.candidateAt searchResults i))
                    (similarity (RAG.candidateAt searchResults j)) = true).
    { rewrite Hs, similarity_candidateAt. by apply similarity_nonnegative_distance. }
    pose proof (filterRelevantContext_sorted searchResults t) as Hsorted.
    rewrite E in Hsorted.
    assert (Hfront : RAG.candidateAt searchResults j ∈ l1 ->
              tied (RAG.candidateAt searchResults j) (RAG.candidateAt searchResults i)).
    { intros Hin. split; [| done]. exact (StronglySorted_before _ _ _ _ _ Hsorted Hin). }
    split; [done |].
    intros Hj' Hge Hne.
    assert (Hin : RAG.candidateAt searchResults j
                    ∈ RAG.filterRelevantContext searchResults t).
    { apply elem_of_filterRelevantContext. by exists j. }
    rewrite E in Hin. apply elem_of_app in Hin as [Hin | Hin]; [by destruct Hne; auto |].
    apply elem_of_cons in Hin as [Heq | Hin]; [| done].
    destruct Hne. rewrite Heq. split; apply ge_refl, candidateAt_notNaN.
Qed.

(** The second chunk has no distance: it is returned in front of the first
    (similarity 0.5), which precedes it in the search results. *)
Lemma zero_distance_candidate_witness :
  1 < length (documents missingDistanceResults) /\
  missingOrZero (mjoin (distances missingDistanceResults !! 1)) /\
  RAG.filterRelevantContext missingDistanceResults (JS.double (1 # 10))
  = [] ++ RAG.candidateAt missingDistanceResults 1
       :: [RAG.candidateAt missingDistanceResults 0] /\
  similarity (RAG.candidateAt missingDistanceResults 1) = JS.Fin 1 /\
  RAG.candidateAt missingDistanceResults 0
    ∈ [RAG.candidateAt missingDistanceResults 0].
Proof.
  assert (H1 : 1 < length (documents missingDistanceResults)) by (cbn; lia).
  assert (H2 : missingOrZero (mjoin (distances missingDistanceResults !! 1)))
    by (by left).
  assert (E : RAG.filterRelevantContext missingDistanceResults (JS.double (1 # 10))
              = [] ++ RAG.candidateAt missingDistanceResults 1
                   :: [RAG.candidateAt missingDistanceResults 0])
    by (vm_compute; reflexivity).
  destruct (zero_distance_candidate missingDistanceResults (JS.double (1 # 10)) 1 H1 H2)
    as (_ & Hs & _ & Hahead).
  split; [exact H1 |]. split; [exact H2 |]. split; [exact E |]. split; [exact Hs |].
  apply (Hahead [] [RAG.candidateAt missingDistanceResults 0] 0 E).
  - vm_compute. reflexivity.
  - cbn. lia.
  - vm_compute. reflexivity.
  - intros [H _]. vm_compute in H. discriminate.
Defined.

(** C9, as stated, fails: a candidate with distance 0 (similarity 1) is
    placed behind a candidate whose reported distance is negative
    (similarity 2). *)
Lemma zero_distance_not_always_first :
  missingOrZero (mjoin (distances negativeDistanceResults !! 0)) /\
  RAG.filterRelevantContext negativeDistanceResults (JS.double (1 # 10))
    = [RAG.candidateAt negativeDistanceResults 1;
       RAG.candidateAt negativeDistanceResults 0] /\
  ~ sortsAhead negativeDistanceResults (JS.double (1 # 10)) 0 (fun _ => True).
Proof.
  split; [right; exists 0%Q; split; reflexivity |].
  split; [vm_compute; reflexivity |].
  intros H.
  destruct (H [RAG.candidateAt negativeDistanceResults 1] [] 1) as [Hfront _];
    [vm_compute; reflexivity | exact I |].
  destruct Hfront as [_ Hle]; [apply list_elem_of_here |].
  vm_compute in Hle. discriminate.
Qed.

(** ** Configuration updates *)

Lemma clamp_within (lo hi : Q) (v : JS.number) :
  (lo <= hi)%Q -> notNaN v ->
  within lo hi (JS.Math_max (JS.Fin lo) (JS.Math_min (JS.Fin hi) v)).
Proof.
  unfold within, notNaN, JS.le. intros Hle Hv.
  destruct v as [| [|] | q]; [congruence | | |]; cbn.
  - rewrite !Qle_bool_iff. split; [apply Qle_refl | done].
  - destruct (Qle_bool hi lo) eqn:E; cbn; rewrite !Qle_bool_iff.
    + apply Qle_bool_iff in E. split; [apply Qle_refl | done].
    + split; [done | apply Qle_refl].
  - destruct (Qle_bool hi q) eqn:E1; cbn.
    + destruct (Qle_bool hi lo) eqn:E2; cbn; rewrite !Qle_bool_iff.
      * split; [apply Qle_refl | done].
      * split; [done | apply Qle_refl].
    + apply Qle_bool_false in E1.
      destruct (Qle_bool q lo) eqn:E2; cbn; rewrite !Qle_bool_iff.
      * split; [apply Qle_refl | done].
      * apply Qle_bool_false in E2. split; lra.
Qed.

(** C10, as the code has it. After a call to [updateConfig] whose given
    fields are numbers other than [NaN], every given field lies in its range
    ([topK] in [[1, 20]], [similarityThreshold] in [[0, 1]],
    [maxContextLength] in [[1, 10]]), every field that is [undefined] is left
    unchanged, and so the invariant is preserved from any state that already
    satisfies it. *)
Theorem updateConfig_invariant
    (this : RAGPipelineService) (newConfig : RAG.NewConfig) :
  numericConfig newConfig ->
  (RAG.new_topK newConfig <> None ->
   within 1 20 (rag_topK (RAG.updateConfig this newConfig))) /\
  (RAG.new_similarityThreshold newConfig <> None ->
   within 0 1 (rag_similarityThreshold (RAG.updateConfig this newConfig))) /\
  (RAG.new_maxContextLength newConfig <> None ->
   within 1 10 (rag_maxContextLength (RAG.updateConfig this newConfig))) /\
  (RAG.new_topK newConfig = None ->
   rag_topK (RAG.updateConfig this newConfig) = rag_topK this) /\
  (RAG.new_similarityThreshold newConfig = None ->
   rag_similarityThreshold (RAG.updateConfig this newConfig)
   = rag_similarityThreshold this) /\
  (RAG.new_maxContextLength newConfig = None ->
   rag_maxContextLength (RAG.updateConfig this newConfig)
   = rag_maxContextLength this) /\
  (configInvariant this -> configInvariant (RAG.updateConfig this newConfig)).
Proof.
  intros (Hk & Hs & Hm).
  destruct newConfig as [k s m]; cbn in *.
  assert (Ek : forall v, k = Some v ->
            within 1 20 (JS.Math_max (JS.Fin 1) (JS.Math_min (JS.Fin 20) v))).
  { intros v Hv. apply clamp_within; [lra | by apply Hk]. }
  assert (Es : forall v, s = Some v ->
            within 0 1 (JS.Math_max (JS.Fin 0) (JS.Math_min (JS.Fin 1) v))).
  { intros v Hv. apply clamp_within; [lra | by apply Hs]. }
  assert (Em : forall v, m = Some v ->
            within 1 10 (JS.Math_max (JS.Fin 1) (JS.Math_min (JS.Fin 10) v))).
  { intros v Hv. apply clamp_within; [lra | by apply Hm]. }
  split; [| split; [| split; [| split; [| split; [| split]]]]].
  - destruct k; [intros _; by apply Ek | congruence].
  - destruct s; [intros _; by apply Es | congruence].
  - destruct m; [intros _; by apply Em | congruence].
  - by intros ->.
  - by intros ->.
  - by intros ->.
  - intros (Ik & Is & Im). split; [| split]; cbn.
    + destruct k; [by apply Ek | done].
    + destruct s; [by apply Es | done].
    + destruct m; [by apply Em | done].
Qed.

Lemma defaultPipeline_invariant : configInvariant defaultPipeline.
Proof. repeat split. Qed.

Lemma updateConfig_invariant_witness :
  numericConfig outOfRangeConfig /\
  configInvariant defaultPipeline /\
  configInvariant (RAG.updateConfig defaultPipeline outOfRangeConfig).
Proof.
  assert (H : numericConfig outOfRangeConfig).
  { repeat split; intros v Hv; cbn in Hv; congruence. }
  split; [exact H |]. split; [exact defaultPipeline_invariant |].
  apply (updateConfig_invariant defaultPipeline outOfRangeConfig H).
  exact defaultPipeline_invariant.
Defined.

(** C10, as stated, fails: [NaN] is not [undefined], and
    [Math.max(1, Math.min(20, NaN))] is [NaN]; from a state satisfying the
    invariant the call leaves [topK] outside [[1, 20]]. *)
Lemma updateConfig_NaN_breaks_invariant :
  configInvariant defaultPipeline /\
  rag_topK (RAG.updateConfig defaultPipeline nanConfig) = JS.NaN /\
  ~ configInvariant (RAG.updateConfig defaultPipeline nanConfig).
Proof.
  split; [exact defaultPipeline_invariant |]. split; [reflexivity |].
  intros ((H & _) & _). cbn in H. discriminate.
Qed.

(** ** The embedding request *)

Lemma rethrow_world {A} (e : JsError) env w :
  (Embeddings.rethrow (A:=A) e env w).2 = w.
Proof. unfold Embeddings.rethrow. repeat case_match; done. Qed.

(** Whatever its length, the text posted to the provider is the trimmed
    input: the truncated copy is assigned to [text] and never used. *)
Lemma generateEmbedding_request env w text :
  Embeddings.isServiceAvailable (embeddingsService env) = true ->
  JS.truthyStr text = true ->
  String.length (JS.trim (JS.show text)) <> 0 ->
  embeddingRequests (Embeddings.generateEmbedding text env w).2
  = embeddingRequests w ++
      [{| input := [JS.trim (JS.show text)];
          req_model := "jina-embeddings-v2-base-en" |}].
Proof.
  intros Ha Ht Hl.
  unfold Embeddings.generateEmbedding, Embeddings.post. unfoldM. cbn.
  rewrite Ha, Ht. cbn.
  destruct (String.length _ =? 0)%nat eqn:E; [apply Nat.eqb_eq in E; congruence |].
  destruct (axios_post _ _ _) as [e | body]; cbn.
  - by rewrite rethrow_world.
  - repeat case_match; simplify_eq; cbn; rewrite ?rethrow_world; done.
Qed.

Lemma longText_length : Z.of_nat (String.length (JS.trim longText)) = 32769%Z.
Proof. vm_compute. reflexivity. Qed.

(** C5 at a text of 32769 characters, with [maxTokens = 8192]: the length
    test of [generateEmbedding] fires ([32769 > 8192 * 4]), and the provider
    is sent the whole trimmed text, all 32769 characters of it, not its
    first 32768. *)
Theorem generateEmbedding_long_text_sent_whole :
  (emb_maxTokens (embeddingsService exampleEnv) * 4
     <? Z.of_nat (String.length (JS.trim longText)))%Z = true /\
  embeddingRequests
    (Embeddings.generateEmbedding (Some longText) exampleEnv emptyWorld).2
  = [{| input := [JS.trim longText]; req_model := "jina-embeddings-v2-base-en" |}] /\
  Z.of_nat (String.length (JS.trim longText)) = 32769%Z /\
  (emb_maxTokens (embeddingsService exampleEnv) * 4 = 32768)%Z.
Proof.
  split; [by rewrite longText_length |].
  split; [| split; [exact longText_length | reflexivity]].
  apply (generateEmbedding_request exampleEnv emptyWorld (Some longText)).
  - reflexivity.
  - vm_compute. reflexivity.
  - intros H. pose proof longText_length as HL. cbn [JS.show] in H.
    rewrite H in HL. discriminate.
Qed.

(** ** The session store *)

Lemma sameTraffic_refl w : sameTraffic w w.
Proof. by repeat split. Qed.

Lemma sameTraffic_trans w1 w2 w3 : sameTraffic w1 w2 -> sameTraffic w2 w3 -> sameTraffic w1 w3.
Proof. intros (?&?&?) (?&?&?). repeat split; congruence. Qed.

Lemma parseIntOr_nonzero v d : d <> 0%Z -> parseIntOr v d <> 0%Z.
Proof. destruct v as [[| p | p] |]; cbn; intros; try done. Qed.

Lemma sessionTtl_nonzero env : Redis.sessionTtl env <> 0%Z.
Proof. by apply parseIntOr_nonzero. Qed.

Lemma truthyTtl_nonzero t : t <> 0%Z -> Redis.truthyTtl (Some t) = Some t.
Proof. destruct t; cbn; congruence. Qed.

Lemma set_ok env w key v ttl :
  Redis.isAvailable (redis w) = true -> ttl <> 0%Z ->
  exists w', Redis.set key v (Some ttl) env w = (Ok true, w') /\
    stored w' key = Some v /\
    (forall k, k <> key -> stored w' k = stored w k) /\
    Redis.isAvailable (redis w') = true /\
    ticks w' = ticks w /\
    sameTraffic w w' /\
    ttlRefreshed w' key ttl.
Proof.
  intros Ha Ht. unfold Redis.set, Redis.getService, Redis.setClient.
  rewrite (truthyTtl_nonzero _ Ht). unfoldM. cbn.
  rewrite Ha. cbn.
  unfold Redis.isAvailable, stored, ttlRefreshed in *.
  destruct w as [[c conn] ev er lr tk]; cbn in *.
  destruct c as [| entries timers | db]; cbn in *.
  - by rewrite andb_false_r in Ha.
  - eexists. split; [reflexivity |]. cbn. repeat split.
    + apply lookup_insert_eq.
    + intros k Hk. by apply lookup_insert_ne.
    + done.
    + apply last_snoc.
  - eexists. split; [reflexivity |]. cbn. repeat split.
    + by rewrite lookup_insert_eq.
    + intros k Hk. by rewrite lookup_insert_ne.
    + done.
    + by rewrite lookup_insert_eq.
Qed.

Lemma get_ok env w key :
  Redis.isAvailable (redis w) = true ->
  Redis.get key env w = (Ok (stored w key), w).
Proof.
  intros Ha. unfold Redis.get, Redis.getService. unfoldM. cbn. rewrite Ha. cbn.
  unfold Redis.isAvailable, stored in *.
  destruct (client (redis w)); cbn in *; [by rewrite andb_false_r in Ha | done | done].
Qed.

Lemma getSession_ok env w sid s :
  Redis.isAvailable (redis w) = true ->
  stored w (Redis.sessionKey sid) = Some s ->
  exists w',
    Redis.getSession sid env w
      = (Ok (Some (Redis.touch (clock env (ticks w)) s)), w') /\
    stored w' (Redis.sessionKey sid) = Some (Redis.touch (clock env (ticks w)) s) /\
    (forall k, k <> Redis.sessionKey sid -> stored w' k = stored w k) /\
    Redis.isAvailable (redis w') = true /\
    ticks w' = S (ticks w) /\
    sameTraffic w w' /\
    ttlRefreshed w' (Redis.sessionKey sid) (Redis.sessionTtl env).
Proof.
  intros Ha Hs.
  destruct (set_ok env (nextTick w) (Redis.sessionKey sid)
              (Redis.touch (clock env (ticks w)) s) (Redis.sessionTtl env))
    as (w' & E & H1 & H2 & H3 & H4 & H5 & H6); [done | apply sessionTtl_nonzero |].
  exists w'. split.
  - unfold Redis.getSession. runM. rewrite (get_ok _ _ _ Ha), Hs. runM. rewrite E. by runM.
  - repeat split; try done; apply H5.
Qed.


Lemma updateSession_ok env w sid s :
  Redis.isAvailable (redis w) = true ->
  exists w',
    Redis.updateSession sid s env w = (Ok true, w') /\
    stored w' (Redis.sessionKey sid) = Some (Redis.touch (clock env (ticks w)) s) /\
    (forall k, k <> Redis.sessionKey sid -> stored w' k = stored w k) /\
    Redis.isAvailable (redis w') = true /\
    ticks w' = S (ticks w) /\
    sameTraffic w w' /\
    ttlRefreshed w' (Redis.sessionKey sid) (Redis.sessionTtl env).
Proof.
  intros Ha.
  destruct (set_ok env (nextTick w) (Redis.sessionKey sid)
              (Redis.touch (clock env (ticks w)) s) (Redis.sessionTtl env))
    as (w' & E & H1 & H2 & H3 & H4 & H5 & H6); [done | apply sessionTtl_nonzero |].
  exists w'. split.
  - unfold Redis.updateSession. runM. rewrite E. by runM.
  - repeat split; try done; apply H5.
Qed.

Lemma trunc_inject_Z z : JS.trunc (inject_Z z) = z.
Proof.
  unfold JS.trunc. destruct (Qle_bool 0 (inject_Z z)); [apply Qfloor_Z | apply Qceiling_Z].
Qed.

Lemma kept_lastN {A} (max : Z) (l : list A) :
  (0 < max)%Z ->
  (if (max <? Z.of_nat (length l))%Z then JS.sliceFrom l (JS.ofZ (- max)) else l)
  = lastN (Z.to_nat max) l.
Proof.
  intros Hmax. unfold lastN.
  destruct (Z.ltb_spec max (Z.of_nat (length l))) as [Hlt | Hge].
  - unfold JS.sliceFrom, JS.ofZ, JS.relIndex. rewrite trunc_inject_Z.
    destruct (Z.ltb_spec (- max) 0); [| lia]. f_equal. lia.
  - replace (length l - Z.to_nat max) with 0 by lia. done.
Qed.

Lemma lastN_length {A} n (l : list A) : length (lastN n l) <= n.
Proof. unfold lastN. rewrite length_drop. lia. Qed.

Lemma lastN_all {A} n (l : list A) : length l <= n -> lastN n l = l.
Proof. unfold lastN. intros H. replace (length l - n) with 0 by lia. done. Qed.

Lemma lastN_app {A} n (l l' : list A) : lastN n (lastN n l ++ l') = lastN n (l ++ l').
Proof.
  unfold lastN. rewrite !length_app, length_drop.
  rewrite <- (drop_app_le l l' (length l - n)) by lia.
  rewrite drop_drop. f_equal. lia.
Qed.

Lemma addMessage_ok env w sid m s :
  (0 < Redis.maxMessages env)%Z ->
  Redis.isAvailable (redis w) = true ->
  stored w (Redis.sessionKey sid) = Some s ->
  exists w' s',
    Redis.addMessage sid m env w = (Ok true, w') /\
    stored w' (Redis.sessionKey sid) = Some s' /\
    s_messages s'
    = lastN (Z.to_nat (Redis.maxMessages env))
        (s_messages s ++ [restamp (clock env (S (ticks w))) m]) /\
    s_id s' = s_id s /\ s_createdAt s' = s_createdAt s /\
    (forall k, k <> Redis.sessionKey sid -> stored w' k = stored w k) /\
    Redis.isAvailable (redis w') = true /\
    ticks w' = ticks w + 3 /\
    sameTraffic w w'.
Proof.
  intros Hmax Ha Hs.
  destruct (getSession_ok env w sid s Ha Hs)
    as (w1 & E1 & S1 & O1 & A1 & T1 & Q1 & _).
  set (s1 := Redis.touch (clock env (ticks w)) s) in *.
  set (kept := lastN (Z.to_nat (Redis.maxMessages env))
                 (s_messages s ++ [restamp (clock env (S (ticks w))) m])).
  destruct (updateSession_ok env (nextTick w1) sid (Redis.withMessages kept s1))
    as (w2 & E2 & S2 & O2 & A2 & T2 & Q2 & _); [done |].
  exists w2, (Redis.touch (clock env (ticks (nextTick w1))) (Redis.withMessages kept s1)).
  split.
  - unfold Redis.addMessage. runM. rewrite E1. runM.
    rewrite (kept_lastN _ _ Hmax). rewrite T1.
    change (s_messages s1) with (s_messages s). fold (restamp (clock env (S (ticks w))) m).
    fold kept. rewrite E2. by runM.
  - repeat split; try done.
    + intros k Hk. rewrite O2, <- O1 by done. done.
    + rewrite T2. cbn. lia.
    + destruct Q1 as (?&?&?), Q2 as (?&?&?). cbn in *. congruence.
    + destruct Q1 as (?&?&?), Q2 as (?&?&?). cbn in *. congruence.
    + destruct Q1 as (?&?&?), Q2 as (?&?&?). cbn in *. congruence.
Qed.

Lemma addMessages_cons env w sid m ms s :
  (0 < Redis.maxMessages env)%Z ->
  Redis.isAvailable (redis w) = true ->
  stored w (Redis.sessionKey sid) = Some s ->
  exists w' s',
    addMessages sid (m :: ms) env w = (Ok (map (fun _ => true) (m :: ms)), w') /\
    stored w' (Redis.sessionKey sid) = Some s' /\
    s_messages s'
    = lastN (Z.to_nat (Redis.maxMessages env))
        (s_messages s ++ stampedFrom env (ticks w) (m :: ms)) /\
    s_id s' = s_id s /\ s_createdAt s' = s_createdAt s /\
    Redis.isAvailable (redis w') = true.
Proof.
  intros Hmax. revert m w s.
  induction ms as [| m' ms IH]; intros m w s Ha Hs.
  - destruct (addMessage_ok env w sid m s Hmax Ha Hs)
      as (w1 & s1 & E1 & S1 & M1 & I1 & C1 & O1 & A1 & T1 & Q1).
    exists w1, s1. split; [| done].
    cbn [addMessages]. runM. rewrite E1. by runM.
  - destruct (addMessage_ok env w sid m s Hmax Ha Hs)
      as (w1 & s1 & E1 & S1 & M1 & I1 & C1 & O1 & A1 & T1 & Q1).
    destruct (IH m' w1 s1 A1 S1) as (w2 & s2 & E2 & S2 & M2 & I2 & C2 & A2).
    exists w2, s2. split; [| repeat split; try congruence].
    + change (addMessages sid (m :: m' :: ms))
        with (do b <- Redis.addMessage sid m;
              do bs <- addMessages sid (m' :: ms); ret (b :: bs)).
      runM. rewrite E1. runM. rewrite E2. by runM.
    + rewrite M2, M1, lastN_app, <- app_assoc, T1. reflexivity.
Qed.

(** C4. For every stored session and every sequence of [addMessage] calls,
    under a positive configured maximum ([MAX_SESSION_MESSAGES], default 50):
    every call succeeds, the stored list is the last [maxMessages] messages
    of the old list followed by the appended ones (the oldest are dropped
    first, the newest stay in insertion order), and it never holds more than
    [maxMessages] messages. An empty sequence keeps a list that was within
    the maximum. *)
Theorem addMessage_cap env w sid ms s :
  (0 < Redis.maxMessages env)%Z ->
  Redis.isAvailable (redis w) = true ->
  stored w (Redis.sessionKey sid) = Some s ->
  (length (s_messages s) <= Z.to_nat (Redis.maxMessages env) \/ ms <> []) ->
  exists w' s',
    addMessages sid ms env w = (Ok (map (fun _ => true) ms), w') /\
    stored w' (Redis.sessionKey sid) = Some s' /\
    s_messages s'
    = lastN (Z.to_nat (Redis.maxMessages env))
        (s_messages s ++ stampedFrom env (ticks w) ms) /\
    (Z.of_nat (length (s_messages s')) <= Redis.maxMessages env)%Z.
Proof.
  intros Hmax Ha Hs Hms. destruct ms as [| m ms].
  - destruct Hms as [Hlen | ?]; [| done].
    exists w, s. cbn. rewrite app_nil_r, lastN_all by done.
    repeat split; try done. lia.
  - destruct (addMessages_cons env w sid m ms s Hmax Ha Hs)
      as (w' & s' & E & S & Ms & _).
    exists w', s'. repeat split; try done.
    rewrite Ms. pose proof (lastN_length (Z.to_nat (Redis.maxMessages env))
      (s_messages s ++ stampedFrom env (ticks w) (m :: ms))). lia.
Qed.


Lemma touch_touch a b s : Redis.touch a (Redis.touch b s) = Redis.touch a s.
Proof. reflexivity. Qed.

(** [n] calls of [getSession] in a row on a stored session (no append in
    between): call [k] returns the session with [lastActivity] at the clock
    of that call and everything else as stored; the stored session ends
    with the [lastActivity] of the last call; message list, id, creation
    time, the other keys and the traffic are untouched. *)
Lemma getSessionTimes_reads n : forall env w sid s,
  Redis.isAvailable (redis w) = true ->
  stored w (Redis.sessionKey sid) = Some s ->
  exists w',
    getSessionTimes n sid env w = (Ok (readsFrom env (ticks w) n s), w') /\
    stored w' (Redis.sessionKey sid) = Some (afterReads env (ticks w) n s) /\
    (forall k, k <> Redis.sessionKey sid -> stored w' k = stored w k) /\
    Redis.isAvailable (redis w') = true /\
    ticks w' = ticks w + n /\
    sameTraffic w w'.
Proof.
  induction n as [| n IH]; intros env w sid s Ha Hs.
  - exists w. cbn. by repeat split.
  - destruct (getSession_ok env w sid s Ha Hs)
      as (w1 & E1 & S1 & O1 & A1 & T1 & Q1 & R1).
    destruct (IH env w1 sid _ A1 S1) as (w2 & E2 & S2 & O2 & A2 & T2 & Q2).
    exists w2.
    assert (Hreads : readsFrom env (ticks w) (S n) s
                     = Some (Redis.touch (clock env (ticks w)) s)
                       :: readsFrom env (ticks w1) n (Redis.touch (clock env (ticks w)) s)).
    { unfold readsFrom. cbn [seq map]. rewrite Nat.add_0_r. f_equal.
      rewrite <- seq_shift, map_map. apply map_ext. intros k.
      rewrite T1. by replace (ticks w + S k) with (S (ticks w) + k) by lia. }
    split; [cbn [getSessionTimes]; runM; rewrite E1; runM; rewrite E2; runM;
            by rewrite Hreads |].
    split.
    { rewrite S2. f_equal. destruct n as [| k]; cbn.
      - by rewrite Nat.add_0_r.
      - rewrite T1. by replace (ticks w + S k) with (S (ticks w) + k) by lia. }
    split; [intros k Hk; by rewrite O2, O1 |].
    split; [done |]. split; [lia |].
    by eapply sameTraffic_trans.
Qed.

(** On the Redis server every read replaces the TTL of the key (SETEX). *)
Lemma getSession_server_ttl env w sid s db :
  redis w = {| client := ClientRedis db; isConnected := true |} ->
  stored w (Redis.sessionKey sid) = Some s ->
  serverTtl (Redis.getSession sid env w).2 (Redis.sessionKey sid)
  = Some (Redis.sessionTtl env).
Proof.
  intros Hr Hs.
  destruct (getSession_ok env w sid s) as (w' & E & _ & _ & _ & _ & _ & R);
    [unfold Redis.isAvailable; by rewrite Hr | done |].
  rewrite E. cbn [snd]. unfold ttlRefreshed, serverTtl in *.
  assert (Hc : exists db', client (redis w') = ClientRedis db').
  { revert E. unfold Redis.getSession. runM.
    rewrite get_ok by (unfold Redis.isAvailable; by rewrite Hr). rewrite Hs. runM.
    unfold Redis.set, Redis.getService, Redis.setClient. unfoldM. cbn.
    rewrite Hr. cbn. rewrite Hr. cbn. intros [= <-]. by eexists. }
  destruct Hc as (db' & Hc). rewrite Hc in *.
  destruct (db' !! Redis.sessionKey sid) as [[v t] |]; cbn in *; congruence.
Qed.

Lemma set_map env w key v ttl entries timers :
  redis w = {| client := ClientMap entries timers; isConnected := true |} ->
  ttl <> 0%Z ->
  Redis.set key v (Some ttl) env w
  = (Ok true,
     setRedis {| client := ClientMap (<[key := v]> entries)
                             (timers ++ [(key, (ttl * 1000)%Z)]);
                 isConnected := true |} w).
Proof.
  intros Hr Ht. unfold Redis.set, Redis.getService, Redis.setClient.
  rewrite (truthyTtl_nonzero _ Ht). unfoldM. cbn. rewrite Hr. cbn. by rewrite Hr.
Qed.

(** In the in-memory substitute a read schedules one more deletion of the
    key; the deletions scheduled earlier stay pending. *)
Lemma getSession_map_timers env w sid s entries timers :
  redis w = {| client := ClientMap entries timers; isConnected := true |} ->
  entries !! Redis.sessionKey sid = Some s ->
  redis (Redis.getSession sid env w).2
  = {| client :=
         ClientMap (<[Redis.sessionKey sid := Redis.touch (clock env (ticks w)) s]> entries)
           (timers ++ [(Redis.sessionKey sid, (Redis.sessionTtl env * 1000)%Z)]);
       isConnected := true |}.
Proof.
  intros Hr Hs. unfold Redis.getSession. runM.
  rewrite get_ok by (unfold Redis.isAvailable; by rewrite Hr).
  unfold stored. rewrite Hr. cbn [client]. rewrite Hs. runM.
  rewrite (set_map env (nextTick w) _ _ _ entries timers);
    [by runM | exact Hr | apply sessionTtl_nonzero].
Qed.

Lemma addMessage_cap_witness :
  (0 < Redis.maxMessages (withMaxMessages 2 exampleEnv))%Z /\
  Redis.isAvailable (redis oneSessionWorld) = true /\
  stored oneSessionWorld (Redis.sessionKey (Some "s1")) = Some exampleSession /\
  exists w' s',
    addMessages (Some "s1") [userMessage "one"; userMessage "two"; userMessage "three"]
      (withMaxMessages 2 exampleEnv) oneSessionWorld
    = (Ok [true; true; true], w') /\
    stored w' (Redis.sessionKey (Some "s1")) = Some s' /\
    s_messages s'
    = lastN 2 ([] ++ stampedFrom (withMaxMessages 2 exampleEnv) 0
                       [userMessage "one"; userMessage "two"; userMessage "three"]) /\
    (Z.of_nat (length (s_messages s')) <= 2)%Z.
Proof.
  assert (H1 : (0 < Redis.maxMessages (withMaxMessages 2 exampleEnv))%Z) by (cbn; lia).
  assert (H2 : Redis.isAvailable (redis oneSessionWorld) = true) by reflexivity.
  assert (H3 : stored oneSessionWorld (Redis.sessionKey (Some "s1")) = Some exampleSession)
    by (vm_compute; reflexivity).
  split; [exact H1 |]. split; [exact H2 |]. split; [exact H3 |].
  apply (addMessage_cap (withMaxMessages 2 exampleEnv) oneSessionWorld (Some "s1")
           [userMessage "one"; userMessage "two"; userMessage "three"]
           exampleSession H1 H2 H3).
  right. discriminate.
Defined.

(** With a maximum of 2, three appends keep the last two messages. *)
Example addMessage_cap_run :
  s_messages <$>
    stored (addMessages (Some "s1")
              [userMessage "one"; userMessage "two"; userMessage "three"]
              (withMaxMessages 2 exampleEnv) oneSessionWorld).2
      (Redis.sessionKey (Some "s1"))
  = Some [restamp 4 (userMessage "two"); restamp 7 (userMessage "three")].
Proof. vm_compute. reflexivity. Qed.

(** On the in-memory store [n] reads schedule [n] more deletions of the
    key; every deletion scheduled before stays pending in front of them. *)
Lemma getSessionTimes_map_timers n : forall env w sid s entries timers,
  redis w = {| client := ClientMap entries timers; isConnected := true |} ->
  entries !! Redis.sessionKey sid = Some s ->
  pendingTimers (getSessionTimes n sid env w).2
  = timers ++ replicate n (Redis.sessionKey sid, (Redis.sessionTtl env * 1000)%Z).
Proof.
  induction n as [| n IH]; intros env w sid s entries timers Hr Hs.
  - cbn. unfold pendingTimers. by rewrite Hr, app_nil_r.
  - pose proof (getSession_map_timers env w sid s entries timers Hr Hs) as H1.
    destruct (getSession_ok env w sid s) as (w1 & E1 & _);
      [unfold Redis.isAvailable; by rewrite Hr | unfold stored; by rewrite Hr |].
    rewrite E1 in H1. cbn [snd] in H1.
    cbn [getSessionTimes]. runM. rewrite E1. runM.
    specialize (IH env w1 sid (Redis.touch (clock env (ticks w)) s) _ _ H1
                  (lookup_insert_eq _ _ _)).
    destruct (getSessionTimes n sid env w1) as [[rs | e] w2]; runM; cbn [snd] in *;
      rewrite IH, <- app_assoc; done.
Qed.

(** C7.  The claim: for every existing session, calling [getSession] any
    number of times without appends leaves the message list unchanged; each
    call only advances [lastActivity] and refreshes the session's TTL.

    On the in-memory store the TTL is not refreshed.  After
    [createSession("s1")] and one [addMessage], two reads return the session
    with its message and with [lastActivity] at the clock of each read, and
    the stored message list is unchanged; but the five deletions scheduled
    so far (one by the creation, two by the append, one by each read) are
    all pending, each 86400 s after its own write.  The oldest expires
    first and deletes the session, 86400 s after its creation, however late
    the last read was: from then on [getSession] finds nothing. *)
Theorem getSession_map_first_deadline_stands :
  exists s w',
    stored chattedWorld "session:s1" = Some s /\
    ticks chattedWorld = 5 /\
    s_messages s = [restamp 3 (userMessage "hello")] /\
    getSessionTimes 2 (Some "s1") exampleEnv chattedWorld
    = (Ok [Some (activeAt (clock exampleEnv 5) s);
           Some (activeAt (clock exampleEnv 6) s)], w') /\
    stored w' "session:s1" = Some (activeAt (clock exampleEnv 6) s) /\
    pendingTimers chattedWorld = replicate 3 ("session:s1", 86400000%Z) /\
    pendingTimers w' = replicate 5 ("session:s1", 86400000%Z) /\
    stored (expireNext w') "session:s1" = None /\
    pendingTimers (expireNext w') = replicate 4 ("session:s1", 86400000%Z) /\
    Redis.getSession (Some "s1") exampleEnv (expireNext w')
    = (Ok None, expireNext w').
Proof.
  eexists _, _.
  split; [vm_compute; reflexivity |].
  repeat split; vm_compute; reflexivity.
Qed.

(** ** The streaming channel *)


#[local] Instance sameTraffic_reflexive : Reflexive sameTraffic.
Proof. intros w. apply sameTraffic_refl. Qed.
#[local] Instance sameTraffic_transitive : Transitive sameTraffic.
Proof. intros w1 w2 w3. apply sameTraffic_trans. Qed.
#[local] Instance sameEvents_reflexive : Reflexive sameEvents.
Proof. by intros w. Qed.
#[local] Instance sameEvents_transitive : Transitive sameEvents.
Proof. unfold sameEvents. intros w1 w2 w3. congruence. Qed.

Lemma sameTraffic_sameEvents w w' : sameTraffic w w' -> sameEvents w w'.
Proof. by intros (? & _). Qed.

Section Preserved.

Context (R : World -> World -> Prop) `{!Reflexive R, !Transitive R}.

Lemma keeps_ret {A} (a : A) : keeps R (ret a).
Proof. intros env w. reflexivity. Qed.

Lemma keeps_throw {A} e : keeps R (throw (A:=A) e).
Proof. intros env w. reflexivity. Qed.

Lemma keeps_ask : keeps R ask.
Proof. intros env w. reflexivity. Qed.

Lemma keeps_getWorld : keeps R getWorld.
Proof. intros env w. reflexivity. Qed.

Lemma keeps_bind {A B} (c : M A) (k : A -> M B) :
  keeps R c -> (forall a, keeps R (k a)) -> keeps R (bind c k).
Proof.
  intros Hc Hk env w. rewrite bind_run. specialize (Hc env w).
  destruct (c env w) as [[a | e] w1]; cbn in *; [| done].
  etrans; [exact Hc | apply Hk].
Qed.

Lemma keeps_try {A} (c : M A) h :
  keeps R c -> (forall e, keeps R (h e)) -> keeps R (try_catch c h).
Proof.
  intros Hc Hh env w. rewrite try_run. specialize (Hc env w).
  destruct (c env w) as [[a | e] w1]; cbn in *; [done |].
  etrans; [exact Hc | apply Hh].
Qed.

Lemma returns_keeps {A} (c : M A) : returns R c -> keeps R c.
Proof. intros H env w. destruct (H env w) as (a & w' & -> & Q). done. Qed.

Lemma returns_ret {A} (a : A) : returns R (ret a).
Proof. intros env w. by exists a, w. Qed.

Lemma returns_ask : returns R ask.
Proof. intros env w. by exists env, w. Qed.

Lemma returns_bind {A B} (c : M A) (k : A -> M B) :
  returns R c -> (forall a, returns R (k a)) -> returns R (bind c k).
Proof.
  intros Hc Hk env w. destruct (Hc env w) as (a & w1 & E1 & Q1).
  destruct (Hk a env w1) as (b & w2 & E2 & Q2).
  exists b, w2. split; [by rewrite bind_run, E1 | by etrans].
Qed.

Lemma returns_try {A} (c : M A) h :
  keeps R c -> (forall e, returns R (h e)) -> returns R (try_catch c h).
Proof.
  intros Hc Hh env w. rewrite try_run. specialize (Hc env w).
  destruct (c env w) as [[a | e] w1]; cbn in *.
  - by exists a, w1.
  - destruct (Hh e env w1) as (a & w2 & E & Q). exists a, w2.
    split; [done | by etrans].
Qed.

End Preserved.

Lemma keeps_weaken (R R' : World -> World -> Prop) {A} (c : M A) :
  (forall w w', R w w' -> R' w w') -> keeps R c -> keeps R' c.
Proof. intros H Hc env w. apply H, Hc. Qed.

Lemma returns_weaken (R R' : World -> World -> Prop) {A} (c : M A) :
  (forall w w', R w w' -> R' w w') -> returns R c -> returns R' c.
Proof.
  intros H Hc env w. destruct (Hc env w) as (a & w' & E & Q).
  exists a, w'. split; [done | by apply H].
Qed.

Lemma returns_tick : returns sameTraffic tick.
Proof. intros env w. eexists _, _. split; [reflexivity | by repeat split]. Qed.

Lemma returns_Date_now : returns sameTraffic Date_now.
Proof. intros env w. eexists _, _. split; [reflexivity | by repeat split]. Qed.

Lemma returns_getService : returns sameTraffic Redis.getService.
Proof. intros env w. eexists _, _. split; [reflexivity | by repeat split]. Qed.

Lemma returns_setClient c : returns sameTraffic (Redis.setClient c).
Proof. intros env w. eexists _, _. split; [reflexivity | by repeat split]. Qed.

Create HintDb preserved.

#[local] Hint Resolve returns_tick returns_Date_now returns_getService
  returns_setClient : preserved.
#[local] Hint Resolve returns_keeps : preserved.
#[local] Hint Extern 4 (returns sameEvents _) =>
  apply (returns_weaken sameTraffic sameEvents); [exact sameTraffic_sameEvents |]
  : preserved.
#[local] Hint Extern 4 (keeps sameEvents _) =>
  apply (keeps_weaken sameTraffic sameEvents); [exact sameTraffic_sameEvents |]
  : preserved.

(** Prove [keeps R c] or [returns R c] along the structure of [c]. *)
Ltac preserved :=
  repeat lazymatch goal with
  | |- Reflexive _ => typeclasses eauto
  | |- Transitive _ => typeclasses eauto
  | |- forall _, _ => intros ?
  | |- keeps _ (ret _) => apply keeps_ret
  | |- keeps _ (throw _) => apply keeps_throw
  | |- keeps _ ask => apply keeps_ask
  | |- keeps _ (bind _ _) => apply keeps_bind
  | |- keeps _ (try_catch _ _) => apply keeps_try
  | |- returns _ (ret _) => apply returns_ret
  | |- returns _ ask => apply returns_ask
  | |- returns _ (bind _ _) => apply returns_bind
  | |- returns _ (try_catch _ _) => apply returns_try
  | |- keeps _ (match ?x with _ => _ end) => destruct x
  | |- returns _ (match ?x with _ => _ end) => destruct x
  | |- keeps _ _ => solve [eauto with preserved]
  | |- returns _ _ => solve [eauto with preserved]
  end.

Lemma returns_set key v ttl : returns sameTraffic (Redis.set key v ttl).
Proof. unfold Redis.set. preserved. Qed.

Lemma returns_get key : returns sameTraffic (Redis.get key).
Proof. unfold Redis.get. preserved. Qed.

#[local] Hint Resolve returns_set returns_get : preserved.

Lemma returns_generateSessionId : returns sameTraffic Redis.generateSessionId.
Proof. unfold Redis.generateSessionId. preserved. Qed.

#[local] Hint Resolve returns_generateSessionId : preserved.

Lemma returns_createSession sid : returns sameTraffic (Redis.createSession sid).
Proof. unfold Redis.createSession. preserved. Qed.

Lemma returns_getSession sid : returns sameTraffic (Redis.getSession sid).
Proof. unfold Redis.getSession. preserved. Qed.

Lemma returns_updateSession sid s : returns sameTraffic (Redis.updateSession sid s).
Proof. unfold Redis.updateSession. preserved. Qed.

#[local] Hint Resolve returns_createSession returns_getSession returns_updateSession
  : preserved.

Lemma returns_addMessage sid m : returns sameTraffic (Redis.addMessage sid m).
Proof. unfold Redis.addMessage. preserved. Qed.

#[local] Hint Resolve returns_addMessage : preserved.

(** The embedding client and the vector gateway emit nothing. *)
Lemma keeps_rethrow {A} e : keeps sameEvents (Embeddings.rethrow (A:=A) e).
Proof. intros env w. by rewrite rethrow_world. Qed.

Lemma keeps_post r : keeps sameEvents (Embeddings.post r).
Proof.
  unfold Embeddings.post. preserved.
  intros env w. reflexivity.
Qed.

#[local] Hint Resolve keeps_rethrow keeps_post : preserved.

Lemma keeps_generateEmbedding text : keeps sameEvents (Embeddings.generateEmbedding text).
Proof. unfold Embeddings.generateEmbedding. preserved. Qed.

Lemma returns_searchSimilar e n f : returns sameEvents (VectorDB.searchSimilar e n f).
Proof. unfold VectorDB.searchSimilar. preserved. Qed.



Lemma relayChunk_run sid c env w :
  Chat.relayChunk sid c env w
  = (Ok tt, addEmitted (message_chunk sid (chunk c) (fullText c) (chunkIndex c)
                          (isComplete c) (clock env (ticks w))) (nextTick w)).
Proof. reflexivity. Qed.

Lemma chunkIndices_app es es' : chunkIndices (es ++ es') = chunkIndices es ++ chunkIndices es'.
Proof. apply omap_app. Qed.

Lemma textChunks_nil : textChunks [].
Proof. split; constructor. Qed.

Lemma textChunks_cons sid c f i now es :
  textChunks es -> Forall (lt i) (chunkIndices es) ->
  textChunks (message_chunk sid c f i false now :: es).
Proof. intros [H1 H2] H3. split; [by constructor | by constructor]. Qed.

(** The relayed stream loop: text chunks with indices above the running
    count, strictly increasing. *)
Lemma streamLoop_events sid frags : forall fullText count env w,
  exists acc w' es,
    LLM.streamLoop (Some (Chat.relayChunk sid)) frags fullText count env w
      = (Ok acc, w') /\
    emitted w' = emitted w ++ es /\
    textChunks es /\
    Forall (lt count) (chunkIndices es).
Proof.
  induction frags as [| chunkText frags IH]; intros fullText count env w.
  - exists (fullText, count), w, []. cbn. rewrite app_nil_r.
    repeat split; try done; constructor.
  - cbn [LLM.streamLoop]. destruct (JS.truthyStr (Some chunkText)).
    + runM. cbn [LLM.callOnChunk]. rewrite relayChunk_run. cbn beta iota.
      destruct (IH (fullText +:+ chunkText) (S count) env
                  (addEmitted (message_chunk sid chunkText (fullText +:+ chunkText)
                                 (S count) false (clock env (ticks w))) (nextTick w)))
        as (acc & w' & es & E & Hem & Htc & Hgt).
      exists acc, w', (message_chunk sid chunkText (fullText +:+ chunkText)
                         (S count) false (clock env (ticks w)) :: es).
      split; [exact E |]. split; [by rewrite Hem; cbn; rewrite <- app_assoc |].
      split.
      * apply textChunks_cons; [done |]. eapply Forall_impl; [exact Hgt |].
        cbn. intros; lia.
      * cbn. constructor; [lia |]. eapply Forall_impl; [exact Hgt |]. cbn. intros; lia.
    + apply IH.
Qed.




Lemma generateStreamingResponse_events sid prompt options env w :
  exists es,
    emitted (LLM.generateStreamingResponse prompt options
               (Some (Chat.relayChunk sid)) env w).2 = emitted w ++ es /\
    streamOutcome (LLM.generateStreamingResponse prompt options
                     (Some (Chat.relayChunk sid)) env w).1 es.
Proof.
  unfold LLM.generateStreamingResponse. runM.
  destruct (negb (LLM.isServiceAvailable (llmService env))).
  { runM. exists []. cbn. rewrite app_nil_r. split; [done | apply textChunks_nil]. }
  runM.
  destruct (generateContentStream env (ticks w) prompt _) as [e | result].
  { runM. exists []. cbn. rewrite app_nil_r. split; [done | apply textChunks_nil]. }
  destruct (streamLoop_events sid (fragments result) EmptyString 0 env
              (addLlmRequest
                 (GenerateContentStream prompt
                    (LLM.generationConfig (llmService env) options)) (nextTick w)))
    as (acc & w1 & es & E & Hem & Htc & _).
  runM. rewrite E. cbn beta iota.
  destruct (breaks result) as [e |].
  - runM. exists es. cbn. split; [exact Hem | exact Htc].
  - runM. cbn [LLM.callOnChunk]. rewrite relayChunk_run. runM.
    eexists (es ++ [_]). cbn. rewrite Hem, <- app_assoc. split; [reflexivity |].
    eexists es, _. split; [reflexivity |]. split; [exact Htc | reflexivity].
Qed.

Lemma generateStreamingRAGResponse_events sid query context options env w :
  exists es,
    emitted (LLM.generateStreamingRAGResponse query context options
               (Some (Chat.relayChunk sid)) env w).2 = emitted w ++ es /\
    streamOutcome (LLM.generateStreamingRAGResponse query context options
                     (Some (Chat.relayChunk sid)) env w).1 es.
Proof.
  unfold LLM.generateStreamingRAGResponse. rewrite try_run.
  destruct (generateStreamingResponse_events sid
              (LLM.buildRAGPrompt query context options) options env w)
    as (es & Hem & Hout).
  destruct (LLM.generateStreamingResponse _ _ _ env w) as [[r | e] w1];
    cbn in *; exists es; by split.
Qed.

(** The word-by-word fallback: text chunks carrying the visited indices. *)
Lemma streamWords_events sid words indices : forall env w,
  exists w' es,
    RAG.streamWords (Chat.relayChunk sid) words indices env w = (Ok tt, w') /\
    emitted w' = emitted w ++ es /\
    Forall (fun e => isTextChunk e = true) es /\
    chunkIndices es = indices.
Proof.
  induction indices as [| i indices IH]; intros env w.
  - exists w, []. cbn. rewrite app_nil_r. by repeat split.
  - cbn [RAG.streamWords]. runM. rewrite relayChunk_run. cbn beta iota.
    edestruct IH as (w' & es & E & Hem & Htx & Hix).
    eexists w', (_ :: es). split; [exact E |].
    split; [rewrite Hem; cbn; by rewrite <- app_assoc |].
    split; [by constructor |]. unfold chunkIndices in *. cbn. by rewrite Hix.
Qed.

Lemma seq_sorted start len : StronglySorted lt (seq start len).
Proof.
  revert start. induction len as [| len IH]; intros start; cbn; constructor; [apply IH |].
  apply Forall_forall. intros x Hx. apply elem_of_seq in Hx. lia.
Qed.

Lemma processStreamingQuery_events rag sid query options env w :
  exists r w' texts final,
    RAG.processStreamingQuery rag query (Chat.relayChunk sid) options env w = (Ok r, w') /\
    emitted w' = emitted w ++ texts ++ [final] /\
    textChunks texts /\ isFinalChunk final = true.
Proof.
  unfold RAG.processStreamingQuery. rewrite try_run.
  match goal with |- context [match ?body env w with _ => _ end] =>
    assert (Hbody : exists es, emitted (body env w).2 = emitted w ++ es /\
                               streamOutcome (body env w).1 es);
    [| destruct (body env w) as [[r | e] w1]; cbn in Hbody;
       destruct Hbody as (es & Hem & Hout) ]
  end.
  - runM. destruct (negb (RAG.isReady rag env)).
    { runM. exists []. cbn. rewrite app_nil_r. split; [done | apply textChunks_nil]. }
    runM. unfold Embeddings.generateQueryEmbedding.
    pose proof (keeps_generateEmbedding query env w) as Hq.
    destruct (Embeddings.generateEmbedding query env w) as [[qe | e] w1]; cbn in Hq;
      unfold sameEvents in Hq.
    2:{ exists []. cbn. rewrite app_nil_r. split; [done | apply textChunks_nil]. }
    runM.
    destruct (returns_searchSimilar (embedding qe) (JS.or (topK options) (rag_topK rag))
                (filter options) env w1) as (sr & w2 & E2 & Hs).
    unfold sameEvents in Hs. rewrite E2. cbn beta iota.
    destruct (length (RAG.filterRelevantContext sr _) =? 0)%nat.
    + runM.
      destruct (streamWords_events sid (JS.splitSpace RAG.noContextText)
                  (seq 0 (length (JS.splitSpace RAG.noContextText))) env w2)
        as (w3 & es & E3 & Hem3 & Htx & Hix).
      rewrite E3. runM. rewrite relayChunk_run. runM.
      eexists (es ++ [_]). cbn. rewrite Hem3, Hs, Hq, <- app_assoc.
      split; [reflexivity |]. eexists es, _. split; [reflexivity |].
      split; [| reflexivity]. split; [exact Htx |]. rewrite Hix. apply seq_sorted.
    + runM.
      destruct (generateStreamingRAGResponse_events sid query
                  (RAG.prepareContext (RAG.filterRelevantContext sr
                     (JS.or (similarityThreshold options) (rag_similarityThreshold rag)))
                     (JS.or (maxContextLength options) (rag_maxContextLength rag)))
                  options env w2) as (es & Hem & Hout).
      destruct (LLM.generateStreamingRAGResponse _ _ _ _ env w2) as [[resp | e] w3];
        cbn in Hem, Hout; runM; exists es; cbn; rewrite Hem, Hs, Hq; by split.
  - destruct Hout as (texts & final & -> & Htc & Hfin).
    exists r, w1, texts, final. by split; [| split; [| split]].
  - runM. rewrite relayChunk_run. runM.
    eexists _, _, es, _. split; [reflexivity |]. cbn. rewrite Hem, <- app_assoc.
    by split; [| split].
Qed.

Lemma emit_run e env w : Chat.emit e env w = (Ok tt, addEmitted e w).
Proof. reflexivity. Qed.

Lemma isTextChunk_not_terminal e : isTextChunk e = true -> isTerminal e = false.
Proof. by destruct e as [| ? ? ? ? [] ? | |]. Qed.

Lemma chunkIndices_text_filter es :
  Forall (fun e => isTerminal e = false) es ->
  chunkIndices (List.filter isTextChunk es) = chunkIndices es.
Proof.
  unfold chunkIndices.
  induction 1 as [| e es He _ IH]; [done |].
  destruct e as [| ? ? ? ? [] ? | |]; cbn in *; try done. by rewrite IH.
Qed.

Lemma filter_none {A} (f : A -> bool) l :
  Forall (fun x => f x = false) l -> List.filter f l = [].
Proof. induction 1 as [| x l Hx _ IH]; cbn; [done |]. by rewrite Hx. Qed.

Lemma orderedStream_terminalCount es : orderedStream es -> terminalCount es = 1.
Proof.
  intros (before & term & after & -> & Ht & Hb & _ & Ha).
  unfold terminalCount. rewrite List.filter_app. cbn. rewrite Ht.
  rewrite (filter_none _ _ Hb), (filter_none _ after); [done |].
  eapply Forall_impl; [exact Ha |]. by intros e [? _].
Qed.

Lemma orderedStream_text_sorted es :
  orderedStream es -> StronglySorted lt (chunkIndices (List.filter isTextChunk es)).
Proof.
  intros (before & term & after & -> & Ht & Hb & Hs & Ha).
  rewrite List.filter_app. cbn.
  assert (isTextChunk term = false) as ->.
  { destruct (isTextChunk term) eqn:E; [| done].
    apply isTextChunk_not_terminal in E. congruence. }
  rewrite (filter_none _ after), app_nil_r.
  - by rewrite chunkIndices_text_filter.
  - eapply Forall_impl; [exact Ha |]. intros e [_ He]. by destruct e.
Qed.

Lemma textChunks_ordered pre texts final post :
  Forall (fun e => isTerminal e = false /\ eventIndex e = None) pre ->
  textChunks texts -> isTerminal final = true ->
  Forall (fun e => isTerminal e = false /\ eventIndex e = None) post ->
  orderedStream (pre ++ texts ++ final :: post).
Proof.
  intros Hpre [Htx Hs] Hfin Hpost.
  exists (pre ++ texts), final, post.
  split; [by rewrite <- app_assoc |]. split; [done |].
  split; [| split; [| done]].
  - apply Forall_app. split.
    + eapply Forall_impl; [exact Hpre |]. by intros e [? _].
    + eapply Forall_impl; [exact Htx |]. apply isTextChunk_not_terminal.
  - rewrite chunkIndices_app.
    replace (chunkIndices pre) with (@nil nat); [done |].
    unfold chunkIndices. clear -Hpre. induction Hpre as [| e l [_ He] _ IH]; [done |].
    cbn. by rewrite He.
Qed.

Lemma isFinalChunk_terminal e : isFinalChunk e = true -> isTerminal e = true.
Proof. by destruct e as [| ? ? ? ? [] ? | |]. Qed.

(** C1, as the code has it. For every message handled on the socket, the
    events emitted are: events that are not terminal, among them the
    [message_chunk] events that carry text ([isComplete] false) with strictly
    increasing indices; then exactly one terminal event ([message_complete],
    a final chunk with [isComplete] true, or [error]); then only [typing].
    So there is never no terminal event and never more than one. The index of
    the final chunk is not above the text chunks' in general. *)
Theorem handleSocketMessage_stream rag data env w :
  exists w' es,
    Chat.handleSocketMessage rag data env w = (Ok tt, w') /\
    emitted w' = emitted w ++ es /\
    terminalCount es = 1 /\
    orderedStream es /\
    StronglySorted lt (chunkIndices (List.filter isTextChunk es)).
Proof.
  assert (Hgoal : exists w' es,
    Chat.handleSocketMessage rag data env w = (Ok tt, w') /\
    emitted w' = emitted w ++ es /\ orderedStream es).
  2:{ destruct Hgoal as (w' & es & E & Hem & Hord). exists w', es.
      split; [done |]. split; [done |].
      split; [by apply orderedStream_terminalCount |].
      split; [done | by apply orderedStream_text_sorted]. }
  unfold Chat.handleSocketMessage. rewrite try_run.
  destruct data as [data |].
  2:{ runM. rewrite !emit_run. runM. rewrite emit_run.
      eexists _, [_; _]. split; [reflexivity |]. cbn. rewrite <- !app_assoc.
      split; [reflexivity |].
      apply (textChunks_ordered [typing false] [] _ []);
        [by repeat constructor | apply textChunks_nil | done | constructor]. }
  destruct (returns_getSession (socket_sessionId data) env w)
    as (s0 & w1 & E1 & Q1).
  rewrite bind_run, E1. cbn beta iota.
  assert (H2 : returns sameTraffic
            (match s0 with
             | Some s => ret (Some s)
             | None => do newSessionId <- Redis.createSession (socket_sessionId data);
                       Redis.getSession newSessionId
             end)) by preserved.
  destruct (H2 env w1) as (s1 & w2 & E2 & Q2).
  rewrite bind_run, E2. runM.
  destruct (returns_addMessage (socket_sessionId data)
              {| msg_role := "user"; msg_content := socket_message data;
                 msg_timestamp := clock env (ticks w2) |} env (nextTick w2))
    as (b & w3 & E3 & Q3).
  rewrite E3. runM. rewrite emit_run. runM.
  assert (Hw3 : emitted w3 = emitted w).
  { destruct Q1 as [Q1 _], Q2 as [Q2 _], Q3 as [Q3 _]. cbn in *. congruence. }
  destruct (negb (RAG.isReady rag env)).
  - runM. rewrite !emit_run. runM. rewrite emit_run. runM.
    edestruct (returns_addMessage (socket_sessionId data)) as (b' & w4 & E4 & Q4).
    rewrite E4. runM.
    eexists _, [_; _; _]. split; [reflexivity |].
    destruct Q4 as [Q4 _]. cbn in Q4. rewrite Q4. cbn. rewrite Hw3.
    rewrite <- !app_assoc. split; [reflexivity |].
    apply (textChunks_ordered [typing true; typing false] [] _ []);
        [by repeat constructor | apply textChunks_nil | done | constructor].
  - runM.
    edestruct (processStreamingQuery_events rag (socket_sessionId data)
                 (socket_message data) Chat.ragOptions env)
      as (r & w4 & texts & final & E4 & Hem & Htc & Hfin).
    rewrite E4. runM. rewrite emit_run. runM.
    eexists _, ([typing true] ++ texts ++ final :: [typing false]).
    split; [reflexivity |]. cbn. rewrite Hem. cbn. rewrite Hw3.
    split; [by rewrite <- !app_assoc |].
    apply (textChunks_ordered [typing true] texts final [typing false]);
      [by repeat constructor | done | by apply isFinalChunk_terminal
      | by repeat constructor].
Qed.

(** C1, as stated, fails: with one stored chunk and a generation stream of
    two fragments, the text chunks carry the indices 1 and 2 and the final
    chunk carries 2 again. *)
Lemma stream_final_chunk_repeats_index :
  emitted (Chat.handleSocketMessage readyPipeline (Some question)
             (withDocuments [newsDocument] exampleEnv) oneSessionWorld).2
  = [typing true;
     message_chunk (Some "s1") "Hello" "Hello" 1 false 7;
     message_chunk (Some "s1") " world" "Hello world" 2 false 8;
     message_chunk (Some "s1") EmptyString "Hello world" 2 true 9;
     typing false] /\
  ~ streamClaim
      (emitted (Chat.handleSocketMessage readyPipeline (Some question)
                  (withDocuments [newsDocument] exampleEnv) oneSessionWorld).2).
Proof.
  assert (E : emitted (Chat.handleSocketMessage readyPipeline (Some question)
                         (withDocuments [newsDocument] exampleEnv) oneSessionWorld).2
              = [typing true;
                 message_chunk (Some "s1") "Hello" "Hello" 1 false 7;
                 message_chunk (Some "s1") " world" "Hello world" 2 false 8;
                 message_chunk (Some "s1") EmptyString "Hello world" 2 true 9;
                 typing false]) by (vm_compute; reflexivity).
  split; [exact E |]. rewrite E. intros [H _]. cbn in H.
  inversion H as [| ? ? H1 _]; subst. inversion H1 as [| ? ? _ H2]; subst.
  inversion H2 as [| ? ? Hlt _]; subst. lia.
Qed.

(** ** The orchestrator *)


Lemma or_zero d : JS.or (Some (JS.Fin 0)) d = d.
Proof. reflexivity. Qed.




(** Options other than 0 are what the stages run with: 2 results asked for,
    a threshold of 0.75, a context of 1. *)
Example options_selected :
  exists context steps w3,
    RAG.processQuery configuredPipeline (Some "What happened to rates?")
      (withTopK (Some (JS.Fin 2))
         (withSimilarityThreshold (Some (JS.double (75 # 100)))
            (withMaxContextLength (Some (JS.Fin 1)) noOptions)))
      indexEnv emptyWorld
    = (Ok (QuerySuccess (Some "What happened to rates?") "Sorry, I do not know."
             context
             {| queryEmbeddingDimensions := 2; searchResultsCount := 2;
                relevantContextCount := 1; finalContextLength := Some 1;
                responseLength := Some 21 |}
             steps), w3) /\
    map ctx_content context = ["a"].
Proof. eexists _, _, _. vm_compute. split; reflexivity. Qed.

Lemma fallbackPrompt_truthy query : JS.truthyStr (Some (RAG.fallbackPrompt query)) = true.
Proof. reflexivity. Qed.

Lemma llm_rethrow_run {A} error env w :
  exists e, LLM.rethrow (A:=A) error env w = (Throw e, w).
Proof. unfold LLM.rethrow. repeat case_match; by eexists. Qed.

Lemma generateFallbackResponse_run query env w :
  exists r w',
    RAG.generateFallbackResponse query env w = (Ok r, w') /\
    text r = fallbackText env (ticks w) query /\
    llmRequests w' = llmRequests w ++ fallbackAttempt env query /\
    emitted w' = emitted w /\ embeddingRequests w' = embeddingRequests w /\
    redis w' = redis w.
Proof.
  unfold RAG.generateFallbackResponse, LLM.generateResponse, fallbackText, fallbackAttempt.
  runM. destruct (LLM.isServiceAvailable (llmService env)); cbn [negb].
  2:{ runM. edestruct (@llm_rethrow_run LLMResponse) as (e & ->). runM.
      eexists _, _. split; [reflexivity |]. cbn. by rewrite app_nil_r. }
  rewrite fallbackPrompt_truthy. cbn [negb]. runM.
  destruct (generateContent env (ticks w) _ _) as [e | raw].
  - runM. edestruct (@llm_rethrow_run LLMResponse) as (e' & ->). runM.
    eexists _, _. split; [reflexivity |]. by cbn.
  - destruct (String.length (JS.trim raw) =? 0)%nat.
    + runM. edestruct (@llm_rethrow_run LLMResponse) as (e' & ->). runM.
      eexists _, _. split; [reflexivity |]. by cbn.
    + runM. eexists _, _. split; [reflexivity |]. by cbn.
Qed.




(** Both providers failing: the result carries the mapped error message and
    the fixed apology, after one request for the fallback prompt. *)
Example processQuery_both_providers_fail :
  RAG.processQuery readyPipeline (Some "What happened to rates?") noOptions
    rateLimitedEnv emptyWorld
  = (Ok (QueryFailure (Some "What happened to rates?") "Jina API rate limit exceeded"
           (FallbackObject {| text := RAG.apology; resp_model := None;
                              resp_chunks := None; resp_usage := None |})),
     {| redis := redis emptyWorld; emitted := [];
        embeddingRequests :=
          [{| input := ["What happened to rates?"];
              req_model := "jina-embeddings-v2-base-en" |}];
        llmRequests :=
          [GenerateContent (RAG.fallbackPrompt (Some "What happened to rates?"))
             (LLM.generationConfig (llmService rateLimitedEnv) RAG.fallbackOptions)];
        ticks := 2 |}).
Proof. vm_compute. reflexivity. Qed.

(** C6. For every query for which relevance filtering yields an empty
    context (the pipeline is ready, the query embedding and the search
    return, and no candidate passes the threshold), [processQuery] returns a
    success result with an empty context list and the answer of the
    fallback-generation path, not an error result. *)
Theorem processQuery_empty_context this q options env w qe w1 sr w2 :
  RAG.isReady this env = true ->
  Embeddings.generateQueryEmbedding (Some q) env w = (Ok qe, w1) ->
  VectorDB.searchSimilar (embedding qe) (JS.or (topK options) (rag_topK this))
    (filter options) env w1 = (Ok sr, w2) ->
  RAG.filterRelevantContext sr
    (JS.or (similarityThreshold options) (rag_similarityThreshold this)) = [] ->
  exists metadata steps w3,
    RAG.processQuery this (Some q) options env w
    = (Ok (QuerySuccess (Some q) (fallbackText env (ticks w2) (Some q)) []
             metadata steps), w3) /\
    llmRequests w3 = llmRequests w2 ++ fallbackAttempt env (Some q).
Proof.
  intros Hready Hemb Hsearch Hfilter.
  destruct (generateFallbackResponse_run (Some q) env w2)
    as (r & w3 & E & Ht & Hl & _).
  unfold RAG.processQuery, RAG.processQueryTry. runM.
  rewrite Hready. cbn [negb]. runM. rewrite Hemb. runM. rewrite Hsearch. runM.
  rewrite Hfilter. cbn [length Nat.eqb]. runM. rewrite E. runM.
  rewrite Ht. by eexists _, _, _.
Qed.

Lemma processQuery_empty_context_witness :
  exists metadata steps w3,
    RAG.processQuery readyPipeline (Some "What happened to rates?") noOptions
      exampleEnv emptyWorld
    = (Ok (QuerySuccess (Some "What happened to rates?")
             "Sorry, I do not know." [] metadata steps), w3).
Proof.
  edestruct (processQuery_empty_context readyPipeline "What happened to rates?"
               noOptions exampleEnv emptyWorld)
    as (metadata & steps & w3 & E & _).
  - reflexivity.
  - vm_compute. reflexivity.
  - vm_compute. reflexivity.
  - vm_compute. reflexivity.
  - exists metadata, steps, w3. rewrite E. reflexivity.
Defined.

(** * Further properties *)

(** ** The session store: round trips, deletions and failures *)

Lemma stored_setRedis_map w es ts c k :
  stored (setRedis {| client := ClientMap es ts; isConnected := c |} w) k = es !! k.
Proof. reflexivity. Qed.

Lemma getService_run env w : Redis.getService env w = (Ok (redis w), w).
Proof. reflexivity. Qed.

Lemma setClient_run c env w :
  Redis.setClient c env w
  = (Ok tt, setRedis {| client := c; isConnected := isConnected (redis w) |} w).
Proof. reflexivity. Qed.

Ltac runStore := repeat (progress (rewrite ?getService_run, ?setClient_run; runM)).

Lemma available_inv r :
  Redis.isAvailable r = true -> isConnected r = true /\ client r <> ClientNull.
Proof. unfold Redis.isAvailable. destruct (isConnected r), (client r); by cbn. Qed.

Lemma set_any env w key v ttl :
  Redis.isAvailable (redis w) = true ->
  exists w', Redis.set key v ttl env w = (Ok true, w') /\
    stored w' key = Some v /\
    (forall k, k <> key -> stored w' k = stored w k) /\
    Redis.isAvailable (redis w') = true /\
    ticks w' = ticks w /\
    sameTraffic w w'.
Proof.
  intros Hav. unfold Redis.set. runStore. rewrite Hav. cbn [negb].
  destruct (available_inv _ Hav) as [Hc Hn].
  unfold stored, Redis.isAvailable.
  destruct (client (redis w)) as [|entries timers|db]; [done| |]; runStore;
    (eexists; split; [reflexivity|]); cbn; rewrite Hc, lookup_insert_eq;
    (repeat split; try done); intros k Hk; by rewrite lookup_insert_ne.
Qed.

Lemma set_unavailable env w key v ttl :
  unavailable w -> Redis.set key v ttl env w = (Ok false, w).
Proof.
  intros Hav. unfold Redis.set. runStore. rewrite Hav. cbn [negb]. by runM.
Qed.

Lemma get_unavailable env w key :
  unavailable w -> Redis.get key env w = (Ok None, w).
Proof.
  intros Hav. unfold Redis.get. runStore. rewrite Hav. cbn [negb]. by runM.
Qed.


Lemma del_run env w key :
  Redis.isAvailable (redis w) = true ->
  exists w', Redis.del key env w = (Ok (bool_decide (is_Some (stored w key))), w') /\
    stored w' key = None /\
    (forall k, k <> key -> stored w' k = stored w k) /\
    Redis.isAvailable (redis w') = true /\
    ticks w' = ticks w /\ sameTraffic w w'.
Proof.
  intros Hav. unfold Redis.del. runStore. rewrite Hav. cbn [negb].
  destruct (available_inv _ Hav) as [Hc Hn].
  unfold stored, Redis.isAvailable.
  destruct (client (redis w)) as [|entries timers|db]; [done| |]; runStore.
  - eexists; split; [reflexivity|]. cbn. rewrite Hc, lookup_delete_eq.
    repeat split; try done. intros k Hk. by rewrite lookup_delete_ne.
  - rewrite (bool_decide_ext (is_Some (fst <$> db !! key)) (is_Some (db !! key)))
      by apply fmap_is_Some.
    eexists; split; [reflexivity|]. cbn. rewrite Hc, lookup_delete_eq.
    repeat split; try done. intros k Hk. by rewrite lookup_delete_ne.
Qed.

Lemma del_unavailable env w key :
  unavailable w -> Redis.del key env w = (Ok false, w).
Proof.
  intros Hav. unfold Redis.del. runStore. rewrite Hav. cbn [negb]. by runM.
Qed.

Lemma setRedis_same w : setRedis (redis w) w = w.
Proof. by destruct w. Qed.

Lemma del_missing env w key :
  stored w key = None -> Redis.del key env w = (Ok false, w).
Proof.
  intros Hs. destruct (Redis.isAvailable (redis w)) eqn:Hav; [|by apply del_unavailable].
  unfold Redis.del. runStore. rewrite Hav. cbn [negb].
  unfold stored in Hs. destruct w as [[c conn] em er lr tk]; cbn in *.
  destruct c as [|entries timers|db]; [done| |]; runStore; cbn.
  - rewrite Hs, delete_id by done. done.
  - rewrite fmap_None in Hs. rewrite Hs, delete_id by done. done.
Qed.

Lemma getSession_missing env w sid :
  unavailable w \/ stored w (Redis.sessionKey sid) = None ->
  Redis.getSession sid env w = (Ok None, w).
Proof.
  intros H. unfold Redis.getSession. runM.
  destruct (Redis.isAvailable (redis w)) eqn:Hav.
  - destruct H as [H|H]; [unfold unavailable in H; congruence|].
    rewrite (get_ok _ _ _ Hav), H. by runM.
  - rewrite (get_unavailable _ _ _ Hav). by runM.
Qed.


Lemma returns_del key : returns sameTraffic (Redis.del key).
Proof. unfold Redis.del. preserved. Qed.

Lemma returns_exists key : returns sameTraffic (Redis.exists_ key).
Proof. unfold Redis.exists_. preserved. Qed.

Lemma returns_expire key seconds : returns sameTraffic (Redis.expire key seconds).
Proof. unfold Redis.expire. preserved. Qed.

#[local] Hint Resolve returns_del returns_exists returns_expire : preserved.

Lemma returns_deleteSession sid : returns sameTraffic (Redis.deleteSession sid).
Proof. unfold Redis.deleteSession. preserved. Qed.

Lemma returns_getSessionMessages sid : returns sameTraffic (Redis.getSessionMessages sid).
Proof. unfold Redis.getSessionMessages. preserved. Qed.

Lemma returns_clearSessionMessages sid : returns sameTraffic (Redis.clearSessionMessages sid).
Proof. unfold Redis.clearSessionMessages. preserved. Qed.



Lemma createSession_ok env w sid :
  Redis.isAvailable (redis w) = true ->
  exists id w1,
    let t := if JS.truthyStr sid then ticks w else S (ticks w) in
    Redis.createSession sid env w = (Ok (Some id), w1) /\
    id = (if JS.truthyStr sid then JS.show sid else "session:" +:+ uuidv4 env (ticks w)) /\
    stored w1 (Redis.sessionKey (Some id))
    = Some (freshSession id (clock env t) (clock env (S t))) /\
    (forall k, k <> Redis.sessionKey (Some id) -> stored w1 k = stored w k) /\
    Redis.isAvailable (redis w1) = true /\
    ticks w1 = S (S t) /\
    sameTraffic w w1.
Proof.
  intros Hav. unfold Redis.createSession. runM.
  destruct (JS.truthyStr sid); unfold Redis.generateSessionId; runM.
  - edestruct (set_any env (nextTick (nextTick w))) as (w1 & E & H1 & H2 & H3 & H4 & H5);
      [exact Hav |]. rewrite E. runM.
    do 2 eexists. split; [reflexivity |]. split; [reflexivity |].
    split; [exact H1 |]. split; [exact H2 |]. split; [exact H3 |].
    split; [exact H4 | exact H5].
  - edestruct (set_any env (nextTick (nextTick (nextTick w))))
      as (w1 & E & H1 & H2 & H3 & H4 & H5); [exact Hav |]. rewrite E. runM.
    do 2 eexists. split; [reflexivity |]. split; [reflexivity |].
    split; [exact H1 |]. split; [exact H2 |]. split; [exact H3 |].
    split; [exact H4 | exact H5].
Qed.

(** A session that [createSession] reports can be read back.  While the
    store answers, [createSession] returns the given id (a generated
    [session:<uuid>] when none is given), and [getSession] on that id then
    returns a session with that id and no messages, whatever was stored
    under the key before; no other key changes. *)
Theorem createSession_then_getSession env w sid :
  Redis.isAvailable (redis w) = true ->
  exists id w1 s w2,
    Redis.createSession sid env w = (Ok (Some id), w1) /\
    id = (if JS.truthyStr sid then JS.show sid else "session:" +:+ uuidv4 env (ticks w)) /\
    Redis.getSession (Some id) env w1 = (Ok (Some s), w2) /\
    s_id s = id /\ s_messages s = [] /\
    (forall k, k <> Redis.sessionKey (Some id) -> stored w2 k = stored w k).
Proof.
  intros Hav.
  destruct (createSession_ok env w sid Hav) as (id & w1 & E1 & Hid & S1 & O1 & A1 & _).
  destruct (getSession_ok env w1 (Some id) _ A1 S1) as (w2 & E2 & S2 & O2 & _).
  eexists id, w1, _, w2.
  repeat split; try done.
  intros k Hk. rewrite O2, O1 by done. done.
Qed.

Lemma createSession_then_getSession_witness :
  exists w1 s w2,
    Redis.createSession None exampleEnv emptyWorld = (Ok (Some "session:0"), w1) /\
    Redis.getSession (Some "session:0") exampleEnv w1 = (Ok (Some s), w2) /\
    s_id s = "session:0" /\ s_messages s = [].
Proof.
  destruct (createSession_then_getSession exampleEnv emptyWorld None)
    as (id & w1 & s & w2 & E1 & Hid & E2 & Hs & Hm & _); [reflexivity|].
  cbn in Hid. subst id. by exists w1, s, w2.
Defined.

(** While the store does not answer, [createSession] still returns an id:
    [set] reports the failure by returning [false], which [createSession]
    does not look at.  Nothing is stored, and the id names no session. *)
Theorem createSession_unavailable env w sid :
  Redis.isAvailable (redis w) = false ->
  exists id w1,
    Redis.createSession sid env w = (Ok (Some id), w1) /\
    redis w1 = redis w /\
    Redis.getSession (Some id) env w1 = (Ok None, w1).
Proof.
  intros Hav. unfold Redis.createSession. runM.
  destruct (JS.truthyStr sid); unfold Redis.generateSessionId; runM;
    rewrite set_unavailable by exact Hav; runM;
    do 2 eexists; (split; [reflexivity|]); (split; [reflexivity|]);
    apply getSession_missing; by left.
Qed.


Lemma createSession_unavailable_witness :
  exists w1,
    Redis.createSession (Some "s1") exampleEnv offlineWorld = (Ok (Some "s1"), w1) /\
    Redis.getSession (Some "s1") exampleEnv w1 = (Ok None, w1).
Proof.
  destruct (createSession_unavailable exampleEnv offlineWorld (Some "s1"))
    as (id & w1 & E1 & _ & E2); [reflexivity|].
  assert (id = "s1") as -> by (vm_compute in E1; congruence).
  by exists w1.
Defined.

(** Operations on a session that is not there (or on a store that does
    not answer) report it and change nothing: [getSession] returns [null],
    [addMessage], [clearSessionMessages] and [deleteSession] return
    [false], [getSessionMessages] returns the empty list, and the store, the
    clock readings and the traffic are exactly as before. *)
Theorem missing_session_untouched env w sid m :
  Redis.isAvailable (redis w) = false \/ stored w (Redis.sessionKey sid) = None ->
  Redis.getSession sid env w = (Ok None, w) /\
  Redis.addMessage sid m env w = (Ok false, w) /\
  Redis.getSessionMessages sid env w = (Ok [], w) /\
  Redis.clearSessionMessages sid env w = (Ok false, w) /\
  Redis.deleteSession sid env w = (Ok false, w).
Proof.
  intros H. pose proof (getSession_missing env w sid H) as E.
  repeat split; try done.
  - unfold Redis.addMessage. runM. rewrite E. by runM.
  - unfold Redis.getSessionMessages. runM. rewrite E. by runM.
  - unfold Redis.clearSessionMessages. runM. rewrite E. by runM.
  - unfold Redis.deleteSession. runM.
    destruct H as [H|H]; [rewrite del_unavailable by done|rewrite del_missing by done];
      by runM.
Qed.

Lemma missing_session_untouched_witness :
  Redis.addMessage (Some "nobody") (userMessage "hello") exampleEnv oneSessionWorld
  = (Ok false, oneSessionWorld).
Proof.
  apply (missing_session_untouched exampleEnv oneSessionWorld (Some "nobody")
           (userMessage "hello")).
  right. reflexivity.
Defined.

(** [deleteSession] on a stored session returns [true] and removes it:
    the key is gone, every other key is untouched, [getSession] then
    returns [null], and a second [deleteSession] returns [false]. *)
Theorem deleteSession_removes env w sid s :
  Redis.isAvailable (redis w) = true ->
  stored w (Redis.sessionKey sid) = Some s ->
  exists w',
    Redis.deleteSession sid env w = (Ok true, w') /\
    stored w' (Redis.sessionKey sid) = None /\
    (forall k, k <> Redis.sessionKey sid -> stored w' k = stored w k) /\
    Redis.getSession sid env w' = (Ok None, w') /\
    Redis.deleteSession sid env w' = (Ok false, w').
Proof.
  intros Hav Hs.
  destruct (del_run env w (Redis.sessionKey sid) Hav) as (w' & E & S' & O' & A' & _).
  rewrite Hs in E. exists w'. split.
  - unfold Redis.deleteSession. runM. rewrite E. by runM.
  - repeat split; try done.
    + apply getSession_missing. by right.
    + unfold Redis.deleteSession. runM. rewrite del_missing by done. by runM.
Qed.

Lemma deleteSession_removes_witness :
  exists w',
    Redis.deleteSession (Some "s1") exampleEnv oneSessionWorld = (Ok true, w') /\
    stored w' "session:s1" = None.
Proof.
  destruct (deleteSession_removes exampleEnv oneSessionWorld (Some "s1") exampleSession)
    as (w' & E & S' & _); [reflexivity|reflexivity|].
  by exists w'.
Defined.

(** [clearSessionMessages] on a stored session returns [true] and leaves
    it with an empty message list and the same id and creation time; no
    other key changes, and [getSessionMessages] then returns the empty
    list. *)
Theorem clearSessionMessages_empties env w sid s :
  Redis.isAvailable (redis w) = true ->
  stored w (Redis.sessionKey sid) = Some s ->
  exists w' s' w'',
    Redis.clearSessionMessages sid env w = (Ok true, w') /\
    stored w' (Redis.sessionKey sid) = Some s' /\
    s_messages s' = [] /\ s_id s' = s_id s /\ s_createdAt s' = s_createdAt s /\
    (forall k, k <> Redis.sessionKey sid -> stored w' k = stored w k) /\
    Redis.getSessionMessages sid env w' = (Ok [], w'').
Proof.
  intros Hav Hs.
  destruct (getSession_ok env w sid s Hav Hs) as (w1 & E1 & S1 & O1 & A1 & _).
  destruct (updateSession_ok env w1 sid
              (Redis.withMessages [] (Redis.touch (clock env (ticks w)) s)) A1)
    as (w2 & E2 & S2 & O2 & A2 & _).
  destruct (getSession_ok env w2 sid _ A2 S2) as (w3 & E3 & _).
  eexists w2, _, w3. split; [|split; [exact S2|]].
  - unfold Redis.clearSessionMessages. runM. rewrite E1. runM. rewrite E2. by runM.
  - repeat split; try done.
    + intros k Hk. by rewrite O2, O1.
    + unfold Redis.getSessionMessages. runM. rewrite E3. by runM.
Qed.

Lemma clearSessionMessages_empties_witness :
  exists w' s',
    Redis.clearSessionMessages (Some "s1") exampleEnv oneSessionWorld = (Ok true, w') /\
    stored w' "session:s1" = Some s' /\ s_messages s' = [].
Proof.
  destruct (clearSessionMessages_empties exampleEnv oneSessionWorld (Some "s1") exampleSession)
    as (w' & s' & w'' & E & S' & M' & _); [reflexivity|reflexivity|].
  by exists w', s'.
Defined.

Lemma last_lastN {A} n (l : list A) : 0 < n -> last (lastN n l) = last l.
Proof.
  intros Hn. unfold lastN. destruct l as [|x l] using rev_ind; [done|].
  rewrite length_app; cbn. rewrite drop_app_le by lia. by rewrite !last_snoc.
Qed.

(** A message that was appended is read back.  Under a positive maximum,
    [getSessionMessages] after [addMessage] returns the last [maxMessages]
    messages of the old list followed by the new message, and the new
    message, stamped with the clock of the append, is the last of them. *)
Theorem addMessage_then_getSessionMessages env w sid m s :
  (0 < Redis.maxMessages env)%Z ->
  Redis.isAvailable (redis w) = true ->
  stored w (Redis.sessionKey sid) = Some s ->
  exists ms w',
    (do _ <- Redis.addMessage sid m; Redis.getSessionMessages sid) env w = (Ok ms, w') /\
    ms = lastN (Z.to_nat (Redis.maxMessages env))
           (s_messages s ++ [restamp (clock env (S (ticks w))) m]) /\
    last ms = Some (restamp (clock env (S (ticks w))) m).
Proof.
  intros Hmax Hav Hs.
  destruct (addMessage_ok env w sid m s Hmax Hav Hs)
    as (w1 & s1 & E1 & S1 & M1 & _ & _ & _ & A1 & _).
  destruct (getSession_ok env w1 sid s1 A1 S1) as (w2 & E2 & _).
  eexists _, w2. split; [|split; [reflexivity|]].
  - runM. rewrite E1. unfold Redis.getSessionMessages. runM. rewrite E2. runM.
    cbn. by rewrite M1.
  - rewrite last_lastN by lia. apply last_snoc.
Qed.

Lemma addMessage_then_getSessionMessages_witness :
  exists w',
    (do _ <- Redis.addMessage (Some "s1") (userMessage "hello");
     Redis.getSessionMessages (Some "s1")) exampleEnv oneSessionWorld
    = (Ok [restamp 1 (userMessage "hello")], w').
Proof.
  destruct (addMessage_then_getSessionMessages exampleEnv oneSessionWorld (Some "s1")
              (userMessage "hello") exampleSession)
    as (ms & w' & E & -> & _); [reflexivity|reflexivity|reflexivity|].
  by exists w'.
Defined.

(** No operation of the session store throws, whatever the state of the
    store: every failure is caught and reported through the return value.
    None of them emits a socket event or calls a provider. *)
Theorem session_store_never_throws :
  (forall key v ttl, returns sameTraffic (Redis.set key v ttl)) /\
  (forall key, returns sameTraffic (Redis.get key)) /\
  (forall key, returns sameTraffic (Redis.del key)) /\
  (forall key, returns sameTraffic (Redis.exists_ key)) /\
  (forall key seconds, returns sameTraffic (Redis.expire key seconds)) /\
  (forall sid, returns sameTraffic (Redis.createSession sid)) /\
  (forall sid, returns sameTraffic (Redis.getSession sid)) /\
  (forall sid s, returns sameTraffic (Redis.updateSession sid s)) /\
  (forall sid, returns sameTraffic (Redis.deleteSession sid)) /\
  (forall sid m, returns sameTraffic (Redis.addMessage sid m)) /\
  (forall sid, returns sameTraffic (Redis.getSessionMessages sid)) /\
  (forall sid, returns sameTraffic (Redis.clearSessionMessages sid)).
Proof.
  split; [exact returns_set |]. split; [exact returns_get |].
  split; [exact returns_del |]. split; [exact returns_exists |].
  split; [exact returns_expire |]. split; [exact returns_createSession |].
  split; [exact returns_getSession |]. split; [exact returns_updateSession |].
  split; [exact returns_deleteSession |]. split; [exact returns_addMessage |].
  split; [exact returns_getSessionMessages | exact returns_clearSessionMessages].
Qed.

(** [exists] answers [true] exactly when [get] finds a value, and changes
    nothing.  On the in-memory store [expire] returns [false] and changes
    nothing; on the server a positive TTL changes no stored value. *)
Theorem exists_expire env w key seconds :
  (exists b, Redis.exists_ key env w = (Ok b, w) /\
     (b = true <-> exists v, Redis.get key env w = (Ok (Some v), w))) /\
  (forall entries timers, client (redis w) = ClientMap entries timers ->
     Redis.expire key seconds env w = (Ok false, w)) /\
  (forall k, (0 < seconds)%Z ->
     stored (Redis.expire key seconds env w).2 k = stored w k).
Proof.
  split; [|split].
  - unfold Redis.exists_, Redis.get. runStore.
    destruct (Redis.isAvailable (redis w)) eqn:Hav; cbn [negb]; runM.
    + destruct (available_inv _ Hav) as [_ Hn].
      destruct (client (redis w)) as [|entries timers|db]; [done| |]; runM;
        (eexists; split; [reflexivity|]); rewrite bool_decide_eq_true.
      * split; [intros [v Hv]; exists v; by rewrite Hv|intros [v Hv]; exists v; congruence].
      * split; [intros [[v t] Hv]; exists v; by rewrite Hv|].
        intros [v Hv]. destruct (db !! key); [done|]. cbn in Hv. congruence.
    + eexists; split; [reflexivity|]. split; [done|]. intros [v Hv]. congruence.
  - intros entries timers Hc. unfold Redis.expire. runStore. rewrite Hc.
    destruct (negb _); by runM.
  - intros k Hpos. unfold Redis.expire. runStore.
    destruct (negb _); runM; [done|].
    unfold stored.
    destruct (client (redis w)) as [|entries timers|db] eqn:Hc; runM; cbn; rewrite ?Hc; try done.
    destruct (db !! key) as [[v t]|] eqn:Hk; runStore; cbn; rewrite ?Hc; [|done].
    destruct (Z.leb_spec seconds 0); [lia|].
    destruct (decide (k = key)) as [->|Hne].
    + by rewrite lookup_insert_eq, Hk.
    + by rewrite lookup_insert_ne.
Qed.

(** ** The pipeline: context cut, and a pipeline that is not ready *)

Lemma ge_ofNat a b : JS.ge (JS.ofNat a) (JS.ofNat b) = bool_decide (b <= a).
Proof.
  unfold JS.ge, JS.ofNat, JS.ofZ.
  destruct (bool_decide_reflect (b <= a)) as [H | H].
  - apply Qle_bool_iff. rewrite <- Zle_Qle. lia.
  - destruct (Qle_bool _ _) eqn:E; [| done].
    apply Qle_bool_iff in E. rewrite <- Zle_Qle in E. lia.
Qed.

Lemma prepareContextLoop_ofNat items n : forall context,
  length context <= n ->
  RAG.prepareContextLoop items (JS.ofNat n) context
  = context ++ map RAG.contextItemOf (take (n - length context) items).
Proof.
  induction items as [| item rest IH]; intros context Hlen; cbn [RAG.prepareContextLoop].
  - by rewrite take_nil, app_nil_r.
  - rewrite ge_ofNat. destruct (bool_decide_reflect (n <= length context)) as [H | H].
    + replace (n - length context) with 0 by lia. by rewrite app_nil_r.
    + rewrite IH by (rewrite length_app; cbn; lia).
      rewrite length_app. cbn [length].
      replace (n - length context) with (S (n - (length context + 1))) by lia.
      cbn. by rewrite <- app_assoc.
Qed.

Lemma prepareContextLoop_NaN items : forall context,
  RAG.prepareContextLoop items JS.NaN context = context ++ map RAG.contextItemOf items.
Proof.
  induction items as [| item rest IH]; intros context; cbn [RAG.prepareContextLoop].
  - by rewrite app_nil_r.
  - replace (JS.ge (JS.ofNat (length context)) JS.NaN) with false by reflexivity.
    rewrite IH. cbn. by rewrite <- app_assoc.
Qed.

(** [prepareContext] cuts the ranked candidates at the maximum: for a
    maximum [n] it formats the first [n] candidates, in order, and no more;
    a maximum that is [NaN] cuts nothing. *)
Theorem prepareContext_cut items (n : nat) :
  RAG.prepareContext items (JS.ofNat n) = map RAG.contextItemOf (take n items) /\
  length (RAG.prepareContext items (JS.ofNat n)) = Nat.min n (length items) /\
  RAG.prepareContext items JS.NaN = map RAG.contextItemOf items.
Proof.
  unfold RAG.prepareContext. rewrite prepareContextLoop_ofNat by (cbn; lia).
  cbn [length app]. rewrite Nat.sub_0_r.
  split; [done |]. split; [by rewrite length_map, length_take |].
  by rewrite prepareContextLoop_NaN.
Qed.

(** A pipeline that is not ready answers without touching the embedding
    provider.  [processQuery] returns a failure with the fixed message and
    the answer of one fallback generation; [processStreamingQuery] relays
    exactly one chunk, the error text with index 0 and [isComplete] true,
    and returns a failure, with no request to any provider. *)
Theorem pipeline_not_ready this query options sid env w :
  RAG.isReady this env = false ->
  (exists r w',
     RAG.processQuery this query options env w
     = (Ok (QueryFailure query
              "RAG pipeline not ready - please check service availability"
              (FallbackObject r)), w') /\
     text r = fallbackText env (ticks w) query /\
     llmRequests w' = llmRequests w ++ fallbackAttempt env query /\
     embeddingRequests w' = embeddingRequests w /\ emitted w' = emitted w) /\
  (exists w',
     RAG.processStreamingQuery this query (Chat.relayChunk sid) options env w
     = (Ok (StreamFailure query "RAG pipeline not ready"), w') /\
     emitted w'
     = emitted w ++ [message_chunk sid RAG.streamErrorText RAG.streamErrorText 0 true
                       (clock env (ticks w))] /\
     llmRequests w' = llmRequests w /\ embeddingRequests w' = embeddingRequests w).
Proof.
  intros Hready. split.
  - destruct (generateFallbackResponse_run query env w) as (r & w' & E & Ht & Hl & He & Hm & _).
    exists r, w'. split; [| done].
    unfold RAG.processQuery, RAG.processQueryTry. runM. rewrite Hready. cbn [negb]. runM.
    rewrite E. by runM.
  - unfold RAG.processStreamingQuery. runM. rewrite Hready. cbn [negb]. runM.
    rewrite relayChunk_run. runM. eexists. split; [reflexivity |]. by cbn.
Qed.

Lemma pipeline_not_ready_witness :
  exists r w',
    RAG.processQuery defaultPipeline (Some "What happened to rates?") noOptions
      exampleEnv emptyWorld
    = (Ok (QueryFailure (Some "What happened to rates?")
             "RAG pipeline not ready - please check service availability"
             (FallbackObject r)), w') /\
    text r = "Sorry, I do not know." /\ embeddingRequests w' = [].
Proof.
  destruct (pipeline_not_ready defaultPipeline (Some "What happened to rates?") noOptions
              None exampleEnv emptyWorld)
    as ((r & w' & E & Ht & _ & He & _) & _); [reflexivity |].
  exists r, w'. split; [exact E |]. split; [rewrite Ht; vm_compute; reflexivity | exact He].
Defined.

(** ** The embedding client: rejected inputs and results *)

(** [generateEmbedding] rejects its input before any request is made: with
    no API key, with a text that is missing or empty, and with a text of
    white space only, it throws the message of that check and the world is
    as before. *)
Theorem generateEmbedding_rejects env w text :
  (Embeddings.isServiceAvailable (embeddingsService env) = false ->
   Embeddings.generateEmbedding text env w
   = (Throw (Error "Embeddings service not available - missing API key"), w)) /\
  (Embeddings.isServiceAvailable (embeddingsService env) = true ->
   JS.truthyStr text = false ->
   Embeddings.generateEmbedding text env w
   = (Throw (Error "Text input is required and must be a string"), w)) /\
  (Embeddings.isServiceAvailable (embeddingsService env) = true ->
   JS.truthyStr text = true -> JS.trim (JS.show text) = EmptyString ->
   Embeddings.generateEmbedding text env w
   = (Throw (Error "Text input cannot be empty"), w)).
Proof.
  unfold Embeddings.generateEmbedding.
  split; [| split]; intros Ha; runM; rewrite Ha; cbn [negb]; runM.
  - reflexivity.
  - intros ->. cbn [negb]. by runM.
  - intros -> ->. cbn. by runM.
Qed.

(** When [generateEmbedding] returns, the embedding is not empty and
    [dimensions] is its length; the text was a non-blank string; exactly one
    request was posted, carrying the trimmed text; nothing was emitted and
    the session store is as before. *)
Theorem generateEmbedding_result env w text r w' :
  Embeddings.generateEmbedding text env w = (Ok r, w') ->
  embedding r <> [] /\ dimensions r = length (embedding r) /\
  JS.truthyStr text = true /\ JS.trim (JS.show text) <> EmptyString /\
  embeddingRequests w'
  = embeddingRequests w ++ [{| input := [JS.trim (JS.show text)];
                               req_model := "jina-embeddings-v2-base-en" |}] /\
  ticks w' = S (ticks w) /\ emitted w' = emitted w /\ llmRequests w' = llmRequests w /\
  redis w' = redis w.
Proof.
  unfold Embeddings.generateEmbedding. runM.
  destruct (Embeddings.isServiceAvailable (embeddingsService env)); cbn [negb]; runM;
    [| by cbn].
  destruct (JS.truthyStr text) eqn:Ht; cbn [negb]; runM; [| by cbn].
  destruct (String.length (JS.trim (JS.show text)) =? 0)%nat eqn:Hl; runM; [by cbn |].
  unfold Embeddings.post. runM.
  assert (Hne : JS.trim (JS.show text) <> EmptyString).
  { intros E. rewrite E in Hl. done. }
  destruct (axios_post env (ticks w) _) as [e | body]; runM.
  { intros H. exfalso. revert H. unfold Embeddings.rethrow. repeat case_match; by runM. }
  destruct body as [[[[| [[[| x emb] |] |] rest] |] model usage] |]; runM;
    try (intros H; exfalso; revert H; unfold Embeddings.rethrow; repeat case_match;
         by runM).
  intros [= <- <-]. cbn. repeat split; done.
Qed.

Lemma generateEmbedding_result_witness :
  exists r w',
    Embeddings.generateEmbedding (Some "  hello ") exampleEnv emptyWorld = (Ok r, w') /\
    dimensions r = 2 /\
    embeddingRequests w' = [{| input := ["hello"]; req_model := "jina-embeddings-v2-base-en" |}].
Proof.
  eexists _, _. split; [vm_compute; reflexivity |].
  edestruct (generateEmbedding_result exampleEnv emptyWorld (Some "  hello "))
    as (_ & Hd & _ & _ & Hr & _); [vm_compute; reflexivity |].
  split; [exact Hd | exact Hr].
Defined.

(** ** The socket handler and the session history *)

#[local] Instance sameStore_reflexive : Reflexive sameStore.
Proof. by intros w. Qed.

#[local] Instance sameStore_transitive : Transitive sameStore.
Proof. unfold sameStore. intros w1 w2 w3 H1 H2. congruence. Qed.

Lemma returns_store_tick : returns sameStore tick.
Proof. intros env w. by eexists _, _. Qed.

Lemma returns_store_Date_now : returns sameStore Date_now.
Proof. intros env w. by eexists _, _. Qed.

Lemma returns_store_emit e : returns sameStore (Chat.emit e).
Proof. intros env w. by eexists _, _. Qed.

Lemma returns_store_relayChunk sid c : returns sameStore (Chat.relayChunk sid c).
Proof. intros env w. rewrite relayChunk_run. by eexists _, _. Qed.

Lemma returns_store_addEmbeddingRequest r : returns sameStore (modify (addEmbeddingRequest r)).
Proof. intros env w. by eexists _, _. Qed.

Lemma returns_store_addLlmRequest r : returns sameStore (modify (addLlmRequest r)).
Proof. intros env w. by eexists _, _. Qed.

#[local] Hint Resolve returns_store_tick returns_store_Date_now returns_store_emit
  returns_store_relayChunk returns_store_addEmbeddingRequest returns_store_addLlmRequest
  : preserved.

Lemma keeps_store_generateEmbedding text :
  keeps sameStore (Embeddings.generateEmbedding text).
Proof.
  unfold Embeddings.generateEmbedding, Embeddings.post, Embeddings.rethrow. preserved.
Qed.

Lemma returns_store_searchSimilar e n f : returns sameStore (VectorDB.searchSimilar e n f).
Proof. unfold VectorDB.searchSimilar. preserved. Qed.

Lemma keeps_store_streamLoop sid frags : forall fullText count,
  keeps sameStore (LLM.streamLoop (Some (Chat.relayChunk sid)) frags fullText count).
Proof.
  induction frags as [| c frags IH]; intros fullText count; cbn [LLM.streamLoop];
    [preserved |].
  destruct (JS.truthyStr (Some c)); [| apply IH].
  apply keeps_bind; [typeclasses eauto | cbn; eauto with preserved | intros; apply IH].
Qed.

#[local] Hint Resolve keeps_store_generateEmbedding returns_store_searchSimilar
  keeps_store_streamLoop : preserved.

Lemma keeps_store_generateStreamingResponse sid prompt options :
  keeps sameStore (LLM.generateStreamingResponse prompt options (Some (Chat.relayChunk sid))).
Proof. unfold LLM.generateStreamingResponse, LLM.callOnChunk. preserved. Qed.

#[local] Hint Resolve keeps_store_generateStreamingResponse : preserved.

Lemma keeps_store_streamWords sid words indices :
  keeps sameStore (RAG.streamWords (Chat.relayChunk sid) words indices).
Proof.
  induction indices as [| i indices IH]; cbn [RAG.streamWords]; [preserved |].
  apply keeps_bind; [typeclasses eauto | eauto with preserved | intros; apply IH].
Qed.

#[local] Hint Resolve keeps_store_streamWords : preserved.

Lemma keeps_store_processStreamingQuery rag sid query options :
  keeps sameStore (RAG.processStreamingQuery rag query (Chat.relayChunk sid) options).
Proof.
  unfold RAG.processStreamingQuery, Embeddings.generateQueryEmbedding,
    LLM.generateStreamingRAGResponse.
  preserved.
Qed.

Lemma processStreamingQuery_store rag sid query options env w :
  exists r w',
    RAG.processStreamingQuery rag query (Chat.relayChunk sid) options env w = (Ok r, w') /\
    redis w' = redis w.
Proof.
  destruct (processStreamingQuery_events rag sid query options env w)
    as (r & w' & _ & _ & E & _).
  exists r, w'. split; [done |].
  pose proof (keeps_store_processStreamingQuery rag sid query options env w) as H.
  by rewrite E in H.
Qed.

Lemma stored_same_redis w w' k : redis w' = redis w -> stored w' k = stored w k.
Proof. unfold stored. by intros ->. Qed.

(** What [handleSocketMessage] leaves in the history of a stored session.
    The user's message is appended, stamped by [addMessage].  When the
    pipeline is ready and the answer is streamed, nothing else is stored:
    the assistant's answer goes to the socket only.  When the pipeline is
    not ready, the fixed answer is appended as well.  No other key
    changes. *)
Theorem handleSocketMessage_history rag sid message env w s :
  (0 < Redis.maxMessages env)%Z ->
  Redis.isAvailable (redis w) = true ->
  stored w (Redis.sessionKey sid) = Some s ->
  exists w' s',
    Chat.handleSocketMessage rag
      (Some {| socket_sessionId := sid; socket_message := message |}) env w
    = (Ok tt, w') /\
    stored w' (Redis.sessionKey sid) = Some s' /\
    s_messages s'
    = lastN (Z.to_nat (Redis.maxMessages env))
        (s_messages s ++
         {| msg_role := "user"; msg_content := message;
            msg_timestamp := clock env (ticks w + 3) |} ::
         (if RAG.isReady rag env then []
          else [{| msg_role := "assistant";
                   msg_content := Some Chat.knowledgeBaseUnavailable;
                   msg_timestamp := clock env (ticks w + 8) |}])) /\
    (forall k, k <> Redis.sessionKey sid -> stored w' k = stored w k).
Proof.
  intros Hmax Hav Hs.
  destruct (getSession_ok env w sid s Hav Hs) as (w1 & E1 & S1 & O1 & A1 & T1 & _).
  destruct (addMessage_ok env (nextTick w1) sid
              {| msg_role := "user"; msg_content := message;
                 msg_timestamp := clock env (ticks w1) |} _ Hmax A1 S1)
    as (w2 & s2 & E2 & S2 & M2 & _ & _ & O2 & A2 & T2 & _).
  unfold Chat.handleSocketMessage. cbn [socket_sessionId socket_message]. runM.
  rewrite E1. runM. rewrite E2. runM. rewrite emit_run. runM.
  cbn [ticks nextTick] in M2, T2.
  assert (Hstamp : S (S (ticks w1)) = ticks w + 3) by lia.
  unfold restamp in M2. cbn [msg_role msg_content] in M2. rewrite Hstamp in M2.
  change (s_messages (Redis.touch (clock env (ticks w)) s)) with (s_messages s) in M2.
  destruct (RAG.isReady rag env); cbn [negb].
  - runM.
    destruct (processStreamingQuery_store rag sid message Chat.ragOptions env
                (addEmitted (typing true) w2)) as (r & w3 & E3 & R3).
    rewrite E3. runM. rewrite emit_run. runM.
    eexists _, s2. split; [reflexivity |].
    assert (Hst : forall k, stored (addEmitted (typing false) w3) k = stored w2 k).
    { intros k. apply stored_same_redis. cbn. by rewrite R3. }
    rewrite Hst. split; [done |]. split; [done |].
    intros k Hk. rewrite Hst, O2, <- O1 by done. done.
  - runM. rewrite !emit_run. runM. rewrite emit_run. runM.
    set (w3 := nextTick (addEmitted _ (nextTick (addEmitted _ (addEmitted _ w2))))).
    assert (A3 : Redis.isAvailable (redis w3) = true) by exact A2.
    assert (S3 : stored w3 (Redis.sessionKey sid) = Some s2) by exact S2.
    destruct (addMessage_ok env w3 sid
                {| msg_role := "assistant"; msg_content := Some Chat.knowledgeBaseUnavailable;
                   msg_timestamp := clock env (ticks (nextTick (addEmitted (typing false)
                                      (addEmitted (typing true) w2)))) |}
                s2 Hmax A3 S3)
      as (w4 & s4 & E4 & S4 & M4 & _ & _ & O4 & _).
    match goal with |- context [Redis.addMessage sid ?m env ?w0] =>
      change (Redis.addMessage sid m env w0) with
        (Redis.addMessage sid
           {| msg_role := "assistant"; msg_content := Some Chat.knowledgeBaseUnavailable;
              msg_timestamp := clock env (ticks (nextTick (addEmitted (typing false)
                                 (addEmitted (typing true) w2)))) |} env w3)
    end.
    rewrite E4. runM.
    eexists _, s4. split; [reflexivity |]. split; [done |]. split.
    + rewrite M4, M2, lastN_app, <- app_assoc. cbn [app].
      unfold restamp. cbn [msg_role msg_content].
      replace (S (ticks w3)) with (ticks w + 8); [done |].
      subst w3. cbn [ticks nextTick addEmitted]. lia.
    + intros k Hk. rewrite O4 by done.
      change (stored w3 k) with (stored w2 k). rewrite O2, <- O1 by done. done.
Qed.

Lemma handleSocketMessage_history_witness :
  exists w' s',
    Chat.handleSocketMessage readyPipeline (Some question) exampleEnv oneSessionWorld
    = (Ok tt, w') /\
    stored w' "session:s1" = Some s' /\
    s_messages s'
    = [{| msg_role := "user"; msg_content := Some "What happened to rates?";
          msg_timestamp := 3 |}].
Proof.
  destruct (handleSocketMessage_history readyPipeline (Some "s1")
              (Some "What happened to rates?") exampleEnv oneSessionWorld exampleSession)
    as (w' & s' & E & S' & M' & _); [reflexivity | reflexivity | reflexivity |].
  exists w', s'. split; [exact E |]. split; [exact S' |]. rewrite M'. reflexivity.
Defined.





(** ** The in-memory search *)

Lemma slice_take {A} (l : list A) (k : nat) : JS.slice l (JS.Fin 0) (JS.ofNat k) = take k l.
Proof.
  unfold JS.slice, JS.ofNat, JS.ofZ, JS.relIndex.
  change (JS.trunc 0) with 0%Z. rewrite trunc_inject_Z. cbn [Z.ltb Z.compare Z.to_nat].
  destruct (Z.ltb_spec (Z.of_nat k) 0); [lia |].
  rewrite Nat2Z.id. cbn [Nat.min drop]. rewrite Nat.sub_0_r.
  destruct (Nat.le_ge_cases k (length l)) as [H' | H'].
  - by rewrite Nat.min_l.
  - rewrite Nat.min_r by done. by rewrite !take_ge.
Qed.

(** The in-memory search returns four arrays of one length, the first
    [k] stored documents in insertion order, every distance 0.5, every
    content and metadata present; it reads no clock and changes nothing. *)
Theorem searchSimilar_fallback env w e (k : nat) f docs :
  vectorDbService env = {| vec_client := VectorMap docs; vec_isInitialized := true |} ->
  exists r,
    VectorDB.searchSimilar e (JS.ofNat k) f env w = (Ok r, w) /\
    ids r = map doc_id (take k docs) /\
    length (ids r) = Nat.min k (length docs) /\
    length (documents r) = length (ids r) /\
    length (metadatas r) = length (ids r) /\
    length (distances r) = length (ids r) /\
    Forall (fun d => d = Some (JS.Fin (1 # 2))) (distances r) /\
    Forall (fun d => d <> None) (documents r) /\
    Forall (fun m => m <> None) (metadatas r).
Proof.
  intros Hv. unfold VectorDB.searchSimilar. runM. rewrite Hv. cbn [negb VectorDB.isAvailable
    vec_isInitialized vec_client andb]. runM. rewrite slice_take.
  eexists. split; [reflexivity |]. cbn.
  rewrite !length_map, length_take.
  repeat split; try done; apply Forall_forall; intros x Hx;
    apply list_elem_of_In, in_map_iff in Hx as (d & <- & _); done.
Qed.

Lemma searchSimilar_fallback_witness :
  exists r,
    VectorDB.searchSimilar [] (JS.ofNat 1) None
      (withDocuments [newsDocument; newsDocument] exampleEnv) emptyWorld = (Ok r, emptyWorld) /\
    ids r = ["doc-1"] /\ distances r = [Some (JS.Fin (1 # 2))].
Proof.
  destruct (searchSimilar_fallback (withDocuments [newsDocument; newsDocument] exampleEnv)
              emptyWorld [] 1 None [newsDocument; newsDocument] eq_refl)
    as (r & E & Hi & _).
  exists r. split; [exact E |]. split; [exact Hi |].
  vm_compute in E. by injection E as <-.
Defined.

(** ** The generation client: input validation and outcomes *)

Lemma substring0_length s n : String.length (String.substring 0 n s) = Nat.min n (String.length s).
Proof.
  revert n. induction s as [| c s IH]; intros [| n]; cbn; try done. by rewrite IH.
Qed.

Lemma substring0_prefix s n : String.prefix (String.substring 0 n s) s = true.
Proof.
  revert n. induction s as [| c s IH]; intros [| n]; cbn; try done.
  rewrite IH. by destruct (ascii_dec c c).
Qed.

(** What [validateInput] returns under a positive maximum is never empty,
    never longer than the maximum, and a prefix of the trimmed input: the
    whole of it when it fits. *)
Theorem validateInput_result text (maxLength : Z) r :
  (0 < maxLength)%Z ->
  LLM.validateInput text (Some maxLength) = inr r ->
  r <> EmptyString /\
  (Z.of_nat (String.length r) <= maxLength)%Z /\
  String.prefix r (JS.trim (JS.show text)) = true /\
  (String.length (JS.trim (JS.show text)) <= Z.to_nat maxLength ->
   r = JS.trim (JS.show text)).
Proof.
  intros Hmax. unfold LLM.validateInput, default, from_option, id.
  destruct (JS.truthyStr text); cbn [negb]; [| done].
  set (cleanText := JS.trim (JS.show text)).
  destruct (Nat.eqb_spec (String.length cleanText) 0) as [| Hne]; [done |].
  destruct (Z.ltb_spec maxLength (Z.of_nat (String.length cleanText))) as [Hlt | Hge];
    intros [= <-].
  - unfold JS.substring0.
    pose proof (substring0_length cleanText (Z.to_nat maxLength)) as Hl.
    split; [| split; [| split]].
    + intros E. rewrite E in Hl. cbn in Hl. lia.
    + lia.
    + apply substring0_prefix.
    + lia.
  - split; [| split; [| split]].
    + intros E. by rewrite E in Hne.
    + done.
    + apply prefix_correct. clear. induction cleanText; cbn; [done | by f_equal].
    + done.
Qed.

Lemma validateInput_result_witness :
  LLM.validateInput (Some "  hello world ") (Some 5%Z) = inr "hello" /\
  String.prefix "hello" (JS.trim "  hello world ") = true.
Proof.
  assert (E : LLM.validateInput (Some "  hello world ") (Some 5%Z) = inr "hello")
    by reflexivity.
  split; [exact E |].
  exact (proj1 (proj2 (proj2
    (validateInput_result (Some "  hello world ") 5 "hello" eq_refl E)))).
Defined.

Lemma llm_rethrow_message {A} error env w :
  exists e, LLM.rethrow (A:=A) error env w = (Throw e, w) /\
    (message e = "Invalid Gemini API key" \/
     message e = "Gemini API rate limit exceeded" \/
     message e = "Content blocked by safety filters" \/
     message e = "LLM generation failed: " +:+ message error).
Proof. unfold LLM.rethrow. repeat case_match; eexists; (split; [reflexivity |]); cbn; auto. Qed.

(** The two outcomes of [generateResponse].  When it returns, the provider
    answered the one request made for this prompt, and the text is the
    answer trimmed and not empty.  When it throws, the message is one of
    the three mapped messages or starts with "LLM generation failed: ", and
    at most that one request was made. *)
Theorem generateResponse_outcome prompt options env w :
  match LLM.generateResponse prompt options env w with
  | (Ok r, w') =>
      exists raw,
        generateContent env (ticks w) prompt
          (LLM.generationConfig (llmService env) options) = inr raw /\
        text r = JS.trim raw /\ text r <> EmptyString /\ prompt <> EmptyString /\
        llmRequests w'
        = llmRequests w ++
            [GenerateContent prompt (LLM.generationConfig (llmService env) options)]
  | (Throw e, w') =>
      (exists cause,
         message e = "Invalid Gemini API key" \/
         message e = "Gemini API rate limit exceeded" \/
         message e = "Content blocked by safety filters" \/
         message e = "LLM generation failed: " +:+ cause) /\
      (llmRequests w' = llmRequests w \/
       llmRequests w'
       = llmRequests w ++
           [GenerateContent prompt (LLM.generationConfig (llmService env) options)])
  end.
Proof.
  unfold LLM.generateResponse. runM.
  destruct (LLM.isServiceAvailable (llmService env)); cbn [negb]; runM.
  2:{ edestruct (@llm_rethrow_message LLMResponse) as (e & -> & H).
      split; [by eexists | by left]. }
  destruct prompt as [| c prompt]; cbn [JS.truthyStr negb]; runM.
  { edestruct (@llm_rethrow_message LLMResponse) as (e & -> & H).
    split; [by eexists | by left]. }
  destruct (generateContent env (ticks w) _ _) as [e0 | raw] eqn:Eg; runM.
  { edestruct (@llm_rethrow_message LLMResponse) as (e & -> & H).
    split; [by eexists | by right]. }
  destruct (Nat.eqb_spec (String.length (JS.trim raw)) 0) as [El | Hl]; runM.
  { edestruct (@llm_rethrow_message LLMResponse) as (e & -> & H).
    split; [by eexists | by right]. }
  exists raw. cbn. repeat split; try done. intros E. by rewrite E in Hl.
Qed.

(** ** Batch embeddings *)






